(** * NYC Transit Hub: a shallow embedding of [backend/app.py]

    The development follows the core of the backend: the alert classifier
    ([get_route_status_from_alerts]), the service status aggregator and its
    cache ([get_service_status], [init_db]), the arrival extractor
    ([get_arrivals]), the static schedule loader ([download_gtfs_static]),
    the route topology builder ([parse_gtfs_static], [get_route_polylines])
    and the handlers of the users, favorites and alert subscriptions
    ([create_user] to [delete_alert]).

    Conventions.
    - A Python [str] is a [string] of code units, the bytes of its UTF-8
      encoding.  A text occurs in another, or starts or ends it, exactly
      when its code units do.  A slice counts characters: a character is a
      leading code unit with the continuation units that follow it.
      [str.lower] depends on the Unicode tables of the interpreter; it is
      a parameter of the development ([PyUnicode]), known to lower the
      ASCII letters of a text in place.
    - A Python [dict] that is only looked up by key is a [gmap]; a [dict]
      whose iteration order is observed is an association list in insertion
      order ([ODict.t]).
    - Unix times are integers ([Z]); Python's [//] on integers is [Z.div].
    - An exception is an explicit outcome of the function that raises it, and
      every [try]/[except] of the source is a [match] on that outcome.
    - [datetime.now()] is read from a [Clock], one reading after the other. *)

From Stdlib Require Import ZArith Ascii.
From stdpp Require Import gmap strings list fin_maps sorting.

Local Open Scope Z_scope.

(** ** Python strings *)

Module PyStr.

(** [c.lower()] for an ASCII character. *)
Definition lower_char (c : ascii) : ascii :=
  let n := N_of_ascii c in
  if ((65 <=? n) && (n <=? 90))%N then ascii_of_N (n + 32) else c.

(** [s.lower()] for a text of ASCII characters: the letters A-Z are
    lowered, one code unit each. *)
Fixpoint ascii_lower (s : string) : string :=
  match s with
  | EmptyString => EmptyString
  | String c s' => String (lower_char c) (ascii_lower s')
  end.

(** [s.isascii()]: every code unit is below 128. *)
Fixpoint is_ascii (s : string) : bool :=
  match s with
  | EmptyString => true
  | String c s' => (N_of_ascii c <? 128)%N && is_ascii s'
  end.

(** [s.startswith(p)] *)
Fixpoint startswith (s p : string) {struct p} : bool :=
  match p, s with
  | EmptyString, _ => true
  | String _ _, EmptyString => false
  | String a p', String b s' => bool_decide (a = b) && startswith s' p'
  end.

(** [kw in s] *)
Fixpoint contains (kw s : string) : bool :=
  startswith s kw ||
  match s with
  | EmptyString => false
  | String _ s' => contains kw s'
  end.

(** [s.endswith(p)] *)
Definition endswith (s p : string) : bool :=
  startswith (String.rev s) (String.rev p).

(** A code unit that continues a character: [10xxxxxx]. *)
Definition is_continuation (c : ascii) : bool :=
  let n := N_of_ascii c in ((128 <=? n) && (n <? 192))%N.

(** [s[:n]] for [n >= 0]: the first [n] characters of [s], each with its
    continuation units. *)
Fixpoint take (n : nat) (s : string) : string :=
  match s with
  | EmptyString => EmptyString
  | String c s' =>
      if is_continuation c then String c (take n s')
      else match n with
           | O => EmptyString
           | S n' => String c (take n' s')
           end
  end.

(** The truth value of a string: [bool(s)]. *)
Definition truthy (s : string) : bool :=
  match s with EmptyString => false | _ => true end.

(** ["sep".join(l)] *)
Fixpoint join (sep : string) (l : list string) : string :=
  match l with
  | [] => EmptyString
  | [x] => x
  | x :: l' => x +:+ sep +:+ join sep l'
  end.

(** [kw] occurs in [s] up to the case of the ASCII letters: some substring
    of [s] equals [kw] once the letters A-Z of both are lowered. *)
Definition occurs_ci (kw s : string) : Prop :=
  ∃ pre mid post, s = pre +:+ mid +:+ post ∧ ascii_lower mid = ascii_lower kw.

End PyStr.

(** [str.lower()].  Python lowers a text character by character after the
    Unicode tables of the interpreter, a character giving one or more
    characters and the Greek capital sigma depending on its neighbours.  The
    function is a parameter here; what is known of it is that the ASCII
    characters of a text are lowered in place, whatever surrounds them, and
    that nothing is added before the first or after the last character. *)
Class PyUnicode := {
  str_lower : string → string;
  str_lower_ascii (pre w post : string) :
    PyStr.is_ascii w = true →
    ∃ pre' post',
      str_lower (pre +:+ w +:+ post) = pre' +:+ PyStr.ascii_lower w +:+ post' ∧
      (pre = "" → pre' = "") ∧ (post = "" → post' = "")
}.

(** [str.lower] on the texts of ASCII characters, for examples; the
    characters outside ASCII are left as they are. *)
Definition ascii_text : PyUnicode.
Proof.
  refine {| str_lower := PyStr.ascii_lower |}.
  intros pre w post _.
  exists (PyStr.ascii_lower pre), (PyStr.ascii_lower post).
  split; [|by split; intros ->].
  assert (Happ : ∀ a b, PyStr.ascii_lower (a +:+ b)
                        = PyStr.ascii_lower a +:+ PyStr.ascii_lower b).
  { intros a b. induction a as [|c a IH]; [done|]. simpl. by rewrite IH. }
  by rewrite !Happ.
Defined.

(** ** Severities *)

(** [status_priority = {'service-change': 2, 'delay': 1, 'good': 0}]; a key
    that is not in the table raises [KeyError] ([None] here). *)
Definition status_priority (status : string) : option nat :=
  if decide (status = "service-change") then Some 2%nat
  else if decide (status = "delay") then Some 1%nat
  else if decide (status = "good") then Some 0%nat
  else None.

(** The keyword cascade of [get_route_status_from_alerts] on the combined
    text of one alert. *)
Definition classify_severity `{PyUnicode} (combined_text : string) : string :=
  let combined_text_lower := str_lower combined_text in
  let has kw := PyStr.contains kw combined_text_lower in
  if has "suspended" || has "no service" || has "not operating"
  then "service-change"
  else if has "delayed" || has "delay" || has "running behind"
  then "delay"
  else if has "skip" || has "skips" || has "skip stops"
  then "service-change"
  else if has "express" && (has "running" || has "skip")
  then "service-change"
  else if has "modified schedule" || has "adjusted schedule"
  then "service-change"
  else "good".

(** ** Control flow with exceptions *)

(** The state of a loop that mutates its data in place: [Done] when the
    loop ran to its end, [Raised] when an exception left it; the handler
    then sees the data as they were when the exception was raised. *)
Inductive outcome (S : Type) : Type :=
  | Done (s : S)
  | Raised (s : S).
Arguments Done {S} s.
Arguments Raised {S} s.

Definition outcome_state {S} (o : outcome S) : S :=
  match o with Done s | Raised s => s end.

Definition raised {S} (o : outcome S) : bool :=
  match o with Done _ => false | Raised _ => true end.

(** [for x in l: body] *)
Fixpoint for_each {A S} (body : A → S → outcome S) (l : list A) (s : S)
  : outcome S :=
  match l with
  | [] => Done s
  | x :: l' =>
      match body x s with
      | Done s' => for_each body l' s'
      | Raised s' => Raised s'
      end
  end.

(** ** Real-time feed messages (decoded GTFS-RT) *)

(** [alert.header_text.translation] and [alert.description_text.translation]
    are lists of texts; an informed entity carries an optional [route_id]
    ([HasField('route_id')]). *)
Record Alert := {
  header_text : list string;
  description_text : list string;
  informed_entity : list (option string)
}.

(** [stop_time.arrival.time] when [stop_time.HasField('arrival')]. *)
Record StopTimeUpdate := {
  stop_id : string;
  arrival : option Z
}.

Record TripUpdate := {
  trip_route_id : string;
  stop_time_update : list StopTimeUpdate
}.

Record FeedEntity := {
  alert : option Alert;
  trip_update : option TripUpdate
}.

Definition FeedMessage := list FeedEntity.

(** ** Alert classifier: [get_route_status_from_alerts] *)

Record Message := {
  msg_header : string;
  msg_description : string;
  msg_text : string;
  msg_status : string
}.

Record RouteStatus := {
  rs_status : string;
  rs_messages : list Message
}.

(** The separator of the combined text, [" â€” "] in the source file: a
    space, the eight code units 195 162 226 130 172 226 128 157 and a
    space. *)
Definition separator : string :=
  String " " (String "195" (String "162" (String "226" (String "130"
  (String "172" (String "226" (String "128" (String "157"
  (String " " EmptyString))))))))).

(** [translation[0].text] when there is a translation, else [""] *)
Definition first_translation (translation : list string) : string :=
  match translation with
  | [] => ""
  | t :: _ => t
  end.

Definition combine_text (header description : string) : string :=
  if PyStr.truthy header && PyStr.truthy description
  then header +:+ separator +:+ description
  else if PyStr.truthy header then header
  else if PyStr.truthy description then description
  else "Service alert".

(** The message built for one alert (lines 142-190). *)
Definition alert_message `{PyUnicode} (a : Alert) : Message :=
  let header := first_translation (header_text a) in
  let description := first_translation (description_text a) in
  let combined_text := combine_text header description in
  {| msg_header := PyStr.take 200 header;
     msg_description := PyStr.take 1000 description;
     msg_text := PyStr.take 300 combined_text;
     msg_status := classify_severity combined_text |}.

(** Folding one message into the mapping (lines 177-195): the entry of the
    route is created when missing, the message is appended, and the status
    of the route is raised when the message ranks higher.  The two lookups
    in [status_priority] raise [KeyError] on an unknown status. *)
Definition fold_message (route_id : string) (m : Message)
    (route_status : gmap string RouteStatus) : outcome (gmap string RouteStatus) :=
  let entry :=
    default {| rs_status := "good"; rs_messages := [] |} (route_status !! route_id) in
  let entry := {| rs_status := rs_status entry;
                  rs_messages := rs_messages entry ++ [m] |} in
  let route_status := <[route_id := entry]> route_status in
  match status_priority (msg_status m), status_priority (rs_status entry) with
  | Some p, Some q =>
      if (q <? p)%nat
      then Done (<[route_id := {| rs_status := msg_status m;
                                  rs_messages := rs_messages entry |}]> route_status)
      else Done route_status
  | _, _ => Raised route_status
  end.

(** The body of [for informed_entity in alert.informed_entity]. *)
Definition fold_informed_entity `{PyUnicode} (a : Alert) (informed : option string)
    (route_status : gmap string RouteStatus) : outcome (gmap string RouteStatus) :=
  match informed with
  | Some route_id => fold_message route_id (alert_message a) route_status
  | None => Done route_status
  end.

(** The body of [for entity in feed.entity]. *)
Definition fold_entity `{PyUnicode} (e : FeedEntity)
    (route_status : gmap string RouteStatus) : outcome (gmap string RouteStatus) :=
  match alert e with
  | Some a => for_each (fold_informed_entity a) (informed_entity a) route_status
  | None => Done route_status
  end.

(** [feed] is the result of [fetch_gtfs_feed(MTA_ALERTS_FEED)]: [None] when
    the fetch or the decoding failed.  Both the normal return and the
    [except] branch return the mapping as it is. *)
Definition get_route_status_from_alerts `{PyUnicode} (feed : option FeedMessage)
  : gmap string RouteStatus :=
  match feed with
  | None => ∅
  | Some entities => outcome_state (for_each fold_entity entities ∅)
  end.

(** ** Service status aggregator: [get_service_status] *)

Record LineInfo := {
  line_name : string;
  line_type : string
}.

(** The catalog [all_lines], in the order of the dict literal. *)
Definition all_lines : list (string * LineInfo) :=
  let subway (name : string) := {| line_name := name; line_type := "subway" |} in
  [ ("1", subway "1 Line"); ("2", subway "2 Line"); ("3", subway "3 Line");
    ("4", subway "4 Line"); ("5", subway "5 Line"); ("6", subway "6 Line");
    ("7", subway "7 Line"); ("A", subway "A Line"); ("B", subway "B Line");
    ("C", subway "C Line"); ("D", subway "D Line"); ("E", subway "E Line");
    ("F", subway "F Line"); ("G", subway "G Line"); ("J", subway "J Line");
    ("L", subway "L Line"); ("M", subway "M Line"); ("N", subway "N Line");
    ("Q", subway "Q Line"); ("R", subway "R Line"); ("W", subway "W Line");
    ("Z", subway "Z Line"); ("SI", subway "Staten Island Railway");
    ("S", subway "Shuttle (S)") ].

Record ServiceEntry := {
  sd_id : string;
  sd_name : string;
  sd_type : string;
  sd_status : string;
  sd_message : string;
  sd_messages : list Message
}.

Definition good_service_message : Message :=
  {| msg_header := "Good Service"; msg_description := "";
     msg_text := "Good Service"; msg_status := "good" |}.

(** The body of [for route_id, info in all_lines.items()] (lines 246-268). *)
Definition service_entry (route_status : gmap string RouteStatus)
    (line : string * LineInfo) : ServiceEntry :=
  let '(route_id, info) := line in
  match route_status !! route_id with
  | Some status_info =>
      let primary_text :=
        match rs_messages status_info with
        | m :: _ => msg_text m
        | [] => "Service alert"
        end in
      {| sd_id := route_id; sd_name := line_name info; sd_type := line_type info;
         sd_status := rs_status status_info;
         sd_message := primary_text;
         sd_messages := rs_messages status_info |}
  | None =>
      {| sd_id := route_id; sd_name := line_name info; sd_type := line_type info;
         sd_status := "good";
         sd_message := "Good Service";
         sd_messages := [good_service_message] |}
  end.

Definition build_service_data (route_status : gmap string RouteStatus)
  : list ServiceEntry :=
  service_entry route_status <$> all_lines.

(** *** The table [service_status_cache]

    [init_db] creates the table with the columns [id INTEGER PRIMARY KEY
    AUTOINCREMENT], [route_id TEXT NOT NULL], [status TEXT NOT NULL],
    [message TEXT] and [updated_at TIMESTAMP]: the primary key [id] is the
    only uniqueness constraint of the table. *)
Record CacheRow := {
  row_id : Z;
  row_route_id : string;
  row_status : string;
  row_message : string;
  row_updated_at : Z
}.

(** The rows in insertion order, and the largest row id ever used (the
    [sqlite_sequence] entry that AUTOINCREMENT keeps for the table). *)
Record CacheTable := {
  cache_rows : list CacheRow;
  cache_seq : Z
}.

Definition empty_cache : CacheTable := {| cache_rows := []; cache_seq := 0 |}.

(** The id of a row inserted without an explicit [id]: one more than the
    largest id the table ever held. *)
Definition next_rowid (t : CacheTable) : Z :=
  1 + foldr Z.max (cache_seq t) (map row_id (cache_rows t)).

(** Two rows conflict when they agree on a column set that the table
    declares unique: here the primary key [id] alone. *)
Definition conflicts (new old : CacheRow) : bool :=
  bool_decide (row_id new = row_id old).

(** [INSERT OR REPLACE INTO service_status_cache (route_id, status, message,
    updated_at) VALUES (?, ?, ?, ?)]: the new row gets the next id, the rows
    it conflicts with are deleted, and it is inserted. *)
Definition insert_or_replace (t : CacheTable)
    (route_id status message : string) (updated_at : Z) : CacheTable :=
  let new := {| row_id := next_rowid t; row_route_id := route_id;
                row_status := status; row_message := message;
                row_updated_at := updated_at |} in
  {| cache_rows :=
       filter (λ old, negb (conflicts new old)) (cache_rows t) ++ [new];
     cache_seq := row_id new |}.

(** A clock: the value of the [n]-th reading of [datetime.now()]. *)
Definition Clock := nat → Z.

(** The body of [for service in service_data] (lines 273-280); the state is
    the table and the number of clock readings so far. *)
Definition cache_service (clock : Clock) (st : CacheTable * nat)
    (service : ServiceEntry) : CacheTable * nat :=
  let '(t, tick) := st in
  let messages_str := PyStr.join "|" (msg_text <$> sd_messages service) in
  (insert_or_replace t (sd_id service) (sd_status service) messages_str (clock tick),
   S tick).

Definition cache_results (clock : Clock) (service_data : list ServiceEntry)
    (st : CacheTable * nat) : CacheTable * nat :=
  fold_left (cache_service clock) service_data st.

Record ServiceStatusResponse := {
  ssr_success : bool;
  ssr_data : list ServiceEntry;
  ssr_updated_at : Z
}.

(** One computation cycle: the [try] body of [get_service_status], given the
    result of fetching the alerts feed.  The classifier reads the clock once,
    for its log line, when it had a feed to classify (line 197).  It handles
    its own exceptions and nothing else in the body raises unless SQLite
    does; the [except] branch, reached on a database error only, is not
    modelled. *)
Definition get_service_status `{PyUnicode} (clock : Clock)
    (feed : option FeedMessage)
    (st : CacheTable * nat) : ServiceStatusResponse * (CacheTable * nat) :=
  let route_status := get_route_status_from_alerts feed in
  let logged := match feed with Some _ => S st.2 | None => st.2 end in
  let service_data := build_service_data route_status in
  let '(t, tick) := cache_results clock service_data (st.1, logged) in
  ({| ssr_success := true; ssr_data := service_data;
      ssr_updated_at := clock tick |},
   (t, S tick)).

(** A sequence of computation cycles, one per fetched alerts feed. *)
Definition run_cycles `{PyUnicode} (clock : Clock)
    (feeds : list (option FeedMessage))
    (st : CacheTable * nat) : CacheTable * nat :=
  fold_left (λ st feed, snd (get_service_status clock feed st)) feeds st.

(** The rows of the table for one route ([SELECT * ... WHERE route_id = ?]). *)
Definition rows_of_route (route_id : string) (t : CacheTable) : list CacheRow :=
  filter (λ r, bool_decide (row_route_id r = route_id)) (cache_rows t).

(** ** Sorting as Python does

    [list.sort] and [sorted] are stable; a stable sort has one result, and
    insertion of each element before the first element that is strictly
    greater computes it. *)
Fixpoint insert_sorted {A} (leb : A → A → bool) (x : A) (l : list A) : list A :=
  match l with
  | [] => [x]
  | y :: l' => if leb x y then x :: y :: l' else y :: insert_sorted leb x l'
  end.

Definition stable_sort {A} (leb : A → A → bool) (l : list A) : list A :=
  foldr (insert_sorted leb) [] l.

(** [l.sort(key=key)] with integer keys *)
Definition sort_by_key {A} (key : A → Z) (l : list A) : list A :=
  stable_sort (λ x y, key x <=? key y) l.

(** ** Arrival extractor: [get_arrivals] *)

Record Arrival := {
  arr_line : string;
  arr_direction : string;
  arr_minutes : Z
}.

(** [max(0, (arrival_time - current_time) // 60)] *)
Definition minutes_until (arrival_time current_time : Z) : Z :=
  Z.max 0 ((arrival_time - current_time) / 60).

(** The body of [for stop_time in trip.stop_time_update] (lines 436-451);
    the state is the list of arrivals and the number of clock readings. *)
Definition collect_stop_time (clock : Clock) (station_id route_id : string)
    (st : list Arrival * nat) (stop_time : StopTimeUpdate) : list Arrival * nat :=
  let '(arrivals, tick) := st in
  if PyStr.startswith (stop_id stop_time) station_id then
    match arrival stop_time with
    | Some arrival_time =>
        let current_time := clock tick in
        let minutes := minutes_until arrival_time current_time in
        let direction :=
          if PyStr.endswith (stop_id stop_time) "N" then "Uptown" else "Downtown" in
        (arrivals ++ [{| arr_line := route_id; arr_direction := direction;
                         arr_minutes := minutes |}],
         S tick)
    | None => st
    end
  else st.

(** The body of [for entity in feed.entity] (lines 431-451). *)
Definition collect_entity (clock : Clock) (station_id : string)
    (st : list Arrival * nat) (entity : FeedEntity) : list Arrival * nat :=
  match trip_update entity with
  | Some trip =>
      fold_left (collect_stop_time clock station_id (trip_route_id trip))
                (stop_time_update trip) st
  | None => st
  end.

(** The body of [for feed_name, feed_url in MTA_FEEDS.items()]: a feed that
    could not be fetched or decoded is skipped. *)
Definition collect_feed (clock : Clock) (station_id : string)
    (st : list Arrival * nat) (feed : option FeedMessage) : list Arrival * nat :=
  match feed with
  | None => st
  | Some entities => fold_left (collect_entity clock station_id) entities st
  end.

Record ArrivalsResponse := {
  ar_success : bool;
  ar_station_id : string;
  ar_arrivals : list Arrival
}.

(** [feeds] holds the result of [fetch_gtfs_feed] for each entry of
    [MTA_FEEDS], in order.  Nothing in the [try] body raises. *)
Definition get_arrivals (clock : Clock) (station_id : string)
    (feeds : list (option FeedMessage)) : ArrivalsResponse :=
  let arrivals := fst (fold_left (collect_feed clock station_id) feeds ([], 0%nat)) in
  let arrivals := sort_by_key arr_minutes arrivals in
  let arrivals := take 10 arrivals in
  {| ar_success := true; ar_station_id := station_id; ar_arrivals := arrivals |}.

(** ** Static schedule loader: [download_gtfs_static] *)

(** A row of [csv.DictReader]: [r.get(k)] is [r !! k]. *)
Definition Row := gmap string string.

(** The three tables that [parse_gtfs_static] reads from the archive; a
    member that is missing from the archive reads as the empty table. *)
Record Tables := {
  stops_txt : list Row;
  trips_txt : list Row;
  stop_times_txt : list Row
}.

(** What the bytes of a file hold: a readable archive, or [None] when
    [zipfile.ZipFile], [z.read], [decode] or [csv] raise on them. *)
Definition Content := option Tables.

(** The cached copy at [GTFS_ZIP_PATH]: its modification time and content. *)
Record CachedFile := {
  st_mtime : Z;
  file_content : Content
}.

(** The outcome of [requests.get(GTFS_STATIC_URL, timeout=30)]. *)
Inductive HttpResult :=
  | ConnectionError
  | HttpResponse (status_code : Z) (content : Content).

(** [resp.raise_for_status()] raises on a 4xx or 5xx status. *)
Definition raises_for_status (status_code : Z) : bool :=
  (400 <=? status_code) && (status_code <? 600).

(** The download attempt fails: [requests.get] or [raise_for_status] raises. *)
Definition download_fails (net : HttpResult) : bool :=
  match net with
  | ConnectionError => true
  | HttpResponse status_code _ => raises_for_status status_code
  end.

(** [str(GTFS_ZIP_PATH)], up to the directory of the module. *)
Definition GTFS_ZIP_PATH : string := "google_transit.zip".
Definition GTFS_CACHE_TTL : Z := 60 * 60 * 24.

(** The cached copy is within the freshness window at time [now]. *)
Definition fresh (now : Z) (f : CachedFile) : bool :=
  now - st_mtime f <? GTFS_CACHE_TTL.

(** [download_gtfs_static(force)]: [now] is the time of the call, [net] the
    outcome of the download if it is attempted, [fs] the cached copy if there
    is one.  Returns the path or [None], and the cached copy afterwards; a
    copy written by the call has the time of the call as modification time
    (the duration of the download is not modelled). *)
Definition download_gtfs_static (force : bool) (now : Z) (net : HttpResult)
    (fs : option CachedFile) : option string * option CachedFile :=
  let reuse :=
    match fs with
    | Some f => negb force && fresh now f
    | None => false
    end in
  if reuse then (Some GTFS_ZIP_PATH, fs)
  else
    match net with
    | ConnectionError => (None, fs)
    | HttpResponse status_code content =>
        if raises_for_status status_code then (None, fs)
        else (Some GTFS_ZIP_PATH,
              Some {| st_mtime := now; file_content := content |})
    end.

(** ** Route topology builder: [parse_gtfs_static] *)

(** A [dict] in insertion order: assigning to a key that is present replaces
    its value in place, assigning to a new key appends it. *)
Module ODict.

Definition t (V : Type) := list (string * V).

Fixpoint get {V} (k : string) (d : t V) : option V :=
  match d with
  | [] => None
  | (k', v) :: d' => if decide (k = k') then Some v else get k d'
  end.

Fixpoint set {V} (k : string) (v : V) (d : t V) : t V :=
  match d with
  | [] => [(k, v)]
  | (k', v') :: d' =>
      if decide (k = k') then (k, v) :: d' else (k', v') :: set k v d'
  end.

(** [d.setdefault(k, []).append(x)] *)
Definition append_to {A} (k : string) (x : A) (d : t (list A)) : t (list A) :=
  set k (default [] (get k d) ++ [x]) d.

Definition values {V} (d : t V) : list V := map snd d.

End ODict.

(** The conversions [float] and [int] of a string; [None] is [ValueError].
    [float_zero] is [0.0], the value of [float(0)]. *)
Class PyNumbers := {
  pyfloat : Type;
  float_zero : pyfloat;
  float_of_str : string → option pyfloat;
  int_of_str : string → option Z
}.

(** [x or None]: a field that is missing or empty is falsy. *)
Definition truthy_field (x : option string) : option string :=
  match x with
  | Some s => if PyStr.truthy s then Some s else None
  | None => None
  end.

Section Topology.
Context `{PyNumbers}.

Record Stop := {
  stop_stop_id : string;
  stop_name : string;
  stop_lat : pyfloat;
  stop_lon : pyfloat;
  stop_lines : gset string
}.

(** [float(x or 0)] *)
Definition float_or_zero (x : option string) : option pyfloat :=
  match truthy_field x with
  | Some s => float_of_str s
  | None => Some float_zero
  end.

(** The body of [for r in stops_rows] (lines 507-523). *)
Definition map_stop (stops : ODict.t Stop) (r : Row) : ODict.t Stop :=
  match truthy_field (r !! "stop_id") with
  | None => stops
  | Some stop_id =>
      let '(lat, lon) :=
        match float_or_zero (r !! "stop_lat"), float_or_zero (r !! "stop_lon") with
        | Some lat, Some lon => (lat, lon)
        | _, _ => (float_zero, float_zero)
        end in
      let name :=
        match truthy_field (r !! "stop_name") with
        | Some n => n
        | None => default stop_id (truthy_field (r !! "stop_desc"))
        end in
      ODict.set stop_id
        {| stop_stop_id := stop_id; stop_name := name;
           stop_lat := lat; stop_lon := lon; stop_lines := ∅ |} stops
  end.

(** The body of [for r in trips_rows] (lines 527-531). *)
Definition map_trip (trip_to_route : gmap string string) (r : Row)
  : gmap string string :=
  match truthy_field (r !! "trip_id"), truthy_field (r !! "route_id") with
  | Some trip_id, Some route_id => <[trip_id := route_id]> trip_to_route
  | _, _ => trip_to_route
  end.

(** The body of [for r in stop_times_rows] (lines 535-541); [None] when
    [int] raises. *)
Definition collect_stop_seq (r : Row)
    (trip_stopseq : ODict.t (list (Z * string)))
  : option (ODict.t (list (Z * string))) :=
  seq ← match truthy_field (r !! "stop_sequence") with
        | Some s => int_of_str s
        | None => Some 0
        end;
  match truthy_field (r !! "trip_id"), truthy_field (r !! "stop_id") with
  | Some trip_id, Some stop_id =>
      Some (ODict.append_to trip_id (seq, stop_id) trip_stopseq)
  | _, _ => Some trip_stopseq
  end.

(** The body of [for trip_id, seqs in trip_stopseq.items()] (lines 545-550). *)
Definition group_trip (trip_to_route : gmap string string)
    (route_trips : ODict.t (list (list string)))
    (item : string * list (Z * string)) : ODict.t (list (list string)) :=
  let '(trip_id, seqs) := item in
  match truthy_field (trip_to_route !! trip_id) with
  | None => route_trips
  | Some route_id =>
      let ordered := map snd (sort_by_key fst seqs) in
      ODict.append_to route_id ordered route_trips
  end.

(** [max(trips, key=lambda x: len(x))]: the first trip of greatest length;
    [None] ([ValueError]) on the empty list. *)
Definition max_by_len (trips : list (list string)) : option (list string) :=
  match trips with
  | [] => None
  | t0 :: rest =>
      Some (fold_left (λ best x, if (length best <? length x)%nat then x else best)
                      rest t0)
  end.

(** The state of the loop over the representative trip: the coordinates so
    far, the set [seen], and the stops (whose [lines] sets the loop
    extends). *)
Record Walk := {
  walk_coords : list (pyfloat * pyfloat);
  walk_seen : gset string;
  walk_stops : ODict.t Stop
}.

(** The body of [for stop_id in best] (lines 558-567). *)
Definition visit_stop (route_id : string) (w : Walk) (stop_id : string) : Walk :=
  match ODict.get stop_id (walk_stops w) with
  | None => w
  | Some s =>
      if decide (stop_id ∈ walk_seen w) then w
      else
        {| walk_coords := walk_coords w ++ [(stop_lat s, stop_lon s)];
           walk_seen := {[stop_id]} ∪ walk_seen w;
           walk_stops :=
             ODict.set stop_id
               {| stop_stop_id := stop_stop_id s; stop_name := stop_name s;
                  stop_lat := stop_lat s; stop_lon := stop_lon s;
                  stop_lines := {[route_id]} ∪ stop_lines s |}
               (walk_stops w) |}
  end.

(** The coordinates of a route along its representative trip [best], and
    the stops afterwards (lines 556-567). *)
Definition walk_trip (route_id : string) (best : list string)
    (stops : ODict.t Stop) : Walk :=
  fold_left (visit_stop route_id) best
    {| walk_coords := []; walk_seen := ∅; walk_stops := stops |}.

Record Polyline := {
  pl_id : string;
  pl_name : string;
  pl_coordinates : list (pyfloat * pyfloat)
}.

(** The body of [for route_id, trips in route_trips.items()]
    (lines 554-573); [None] when [max] raises. *)
Definition build_polyline
    (item : string * list (list string))
    (st : ODict.t Polyline * ODict.t Stop)
  : option (ODict.t Polyline * ODict.t Stop) :=
  let '(route_id, trips) := item in
  let '(route_polylines, stops) := st in
  best ← max_by_len trips;
  let w := walk_trip route_id best stops in
  Some (ODict.set route_id
          {| pl_id := route_id; pl_name := route_id;
             pl_coordinates := walk_coords w |} route_polylines,
        walk_stops w).

Record StopEntry := {
  se_id : string;
  se_name : string;
  se_lat : pyfloat;
  se_lon : pyfloat;
  se_lines : list string
}.

(** The body of [for stop in stops.values()] (lines 577-584). *)
Definition stop_entry (stop : Stop) : StopEntry :=
  {| se_id := stop_stop_id stop; se_name := stop_name stop;
     se_lat := stop_lat stop; se_lon := stop_lon stop;
     se_lines := stable_sort String.leb (elements (stop_lines stop)) |}.

(** [mapM]-style loop in which the body may raise. *)
Fixpoint try_each {A S} (body : A → S → option S) (l : list A) (s : S)
  : option S :=
  match l with
  | [] => Some s
  | x :: l' => s' ← body x s; try_each body l' s'
  end.

(** The [try] body of [parse_gtfs_static] on the tables of the archive
    (lines 501-586); [None] when an exception leaves it. *)
Definition build_topology (tb : Tables)
  : option (ODict.t Polyline * list StopEntry) :=
  let stops := fold_left map_stop (stops_txt tb) [] in
  let trip_to_route := fold_left map_trip (trips_txt tb) ∅ in
  trip_stopseq ← try_each collect_stop_seq (stop_times_txt tb) [];
  let route_trips := fold_left (group_trip trip_to_route) trip_stopseq [] in
  '(route_polylines, stops) ← try_each build_polyline route_trips ([], stops);
  Some (route_polylines, map stop_entry (ODict.values stops)).

(** [parse_gtfs_static()]: the unavailable archive, the unreadable archive
    and any exception while parsing all give [({}, [])]. *)
Definition parse_gtfs_static (now : Z) (net : HttpResult)
    (fs : option CachedFile)
  : (ODict.t Polyline * list StopEntry) * option CachedFile :=
  let '(zip_path, fs') := download_gtfs_static false now net fs in
  match zip_path with
  | None => (([], []), fs')
  | Some _ =>
      match fs' with
      | Some {| file_content := Some tb |} =>
          (default ([], []) (build_topology tb), fs')
      | _ => (([], []), fs')
      end
  end.

Record PolylinesResponse := {
  pr_success : bool;
  pr_routes : list Polyline;
  pr_stops : list StopEntry;
  pr_updated_at : Z
}.

(** [get_route_polylines()], the handler of [/api/route-polylines];
    [updated_at] is the reading of [datetime.now()] for the response.  Nothing
    in the [try] body raises, so the handler never answers with an error. *)
Definition get_route_polylines (now updated_at : Z) (net : HttpResult)
    (fs : option CachedFile) : PolylinesResponse * option CachedFile :=
  let '((route_polylines, stops_list), fs') := parse_gtfs_static now net fs in
  let routes := ODict.values route_polylines in
  ({| pr_success := true; pr_routes := routes; pr_stops := stops_list;
      pr_updated_at := updated_at |}, fs').

End Topology.

(** An instance for running the builder on examples: numbers written as
    plain decimal digits, on which [int] and [float] agree with this reading
    (the coordinates of the examples are whole numbers). *)
Fixpoint digits_value (acc : Z) (s : string) : option Z :=
  match s with
  | EmptyString => Some acc
  | String c s' =>
      let n := Z.of_N (N_of_ascii c) in
      if (48 <=? n) && (n <=? 57) then digits_value (10 * acc + (n - 48)) s'
      else None
  end.

Definition parse_decimal (s : string) : option Z :=
  if PyStr.truthy s then digits_value 0 s else None.

Definition decimal_numbers : PyNumbers :=
  {| pyfloat := Z; float_zero := 0;
     float_of_str := parse_decimal; int_of_str := parse_decimal |}.

(** ** The severity order of the specification *)

(** The statuses of the taxonomy. *)
Definition known_status (status : string) : Prop :=
  status = "good" ∨ status = "delay" ∨ status = "service-change".

(** The rank of a status: good 0, delay 1, service-change 2. *)
Definition rank (status : string) : nat := default 0%nat (status_priority status).

(** The greatest rank among the messages of a route. *)
Definition max_rank (messages : list Message) : nat :=
  foldr Nat.max 0%nat (map (λ m, rank (msg_status m)) messages).

(** The test [kw in combined_text_lower] of the source on a combined
    text. *)
Definition matches `{PyUnicode} (text kw : string) : Prop :=
  PyStr.contains kw (str_lower text) = true.

(** A keyword of the source: a text of ASCII characters without capital
    letters. *)
Definition keyword (kw : string) : Prop :=
  PyStr.is_ascii kw = true ∧ PyStr.ascii_lower kw = kw.

(** The keyword groups of the classification, for a notion [found] of a
    keyword being found in the combined text. *)
Definition mentions_suspension (found : string → Prop) : Prop :=
  found "suspended" ∨ found "no service" ∨ found "not operating".

Definition mentions_delay (found : string → Prop) : Prop :=
  found "delayed" ∨ found "delay" ∨ found "running behind".

Definition mentions_skip (found : string → Prop) : Prop :=
  found "skip" ∨ found "skips".

Definition mentions_express (found : string → Prop) : Prop :=
  found "express" ∧ (found "running" ∨ found "skip").

Definition mentions_schedule (found : string → Prop) : Prop :=
  found "modified schedule" ∨ found "adjusted schedule".

(** The classification of the specification: the groups in priority order,
    the first that is found deciding the status. *)
Definition first_match_wins (found : string → Prop) (status : string) : Prop :=
  (mentions_suspension found → status = "service-change") ∧
  (¬ mentions_suspension found → mentions_delay found → status = "delay") ∧
  (¬ mentions_suspension found → ¬ mentions_delay found → mentions_skip found →
   status = "service-change") ∧
  (¬ mentions_suspension found → ¬ mentions_delay found → ¬ mentions_skip found →
   mentions_express found → status = "service-change") ∧
  (¬ mentions_suspension found → ¬ mentions_delay found → ¬ mentions_skip found →
   ¬ mentions_express found → mentions_schedule found →
   status = "service-change") ∧
  (¬ mentions_suspension found → ¬ mentions_delay found → ¬ mentions_skip found →
   ¬ mentions_express found → ¬ mentions_schedule found →
   status = "good").

(** The invariant of the classifier's mapping: the statuses are those of
    the taxonomy and the status of a route has the greatest rank among the
    messages of the route. *)
Definition entry_consistent (e : RouteStatus) : Prop :=
  known_status (rs_status e) ∧
  Forall (λ m, known_status (msg_status m)) (rs_messages e) ∧
  rank (rs_status e) = max_rank (rs_messages e).

Definition mapping_consistent (route_status : gmap string RouteStatus) : Prop :=
  ∀ route_id e, route_status !! route_id = Some e →
    entry_consistent e ∧ rs_messages e ≠ [].

(** A small alerts feed for examples: a delay on the A, then a suspension
    on the A and the L, then an alert without a route. *)
Definition example_alerts : FeedMessage :=
  [ {| alert := Some {| header_text := ["Delays on the A line"];
                        description_text := [];
                        informed_entity := [Some "A"] |};
       trip_update := None |};
    {| alert := Some {| header_text := ["Service suspended"];
                        description_text := ["No trains between stations"];
                        informed_entity := [Some "A"; None; Some "L"] |};
       trip_update := None |};
    {| alert := Some {| header_text := ["Elevator outage"];
                        description_text := [];
                        informed_entity := [None] |};
       trip_update := None |} ].

(** The mapping of the example feed, whose texts are ASCII. *)
Definition example_mapping : gmap string RouteStatus :=
  get_route_status_from_alerts (H := ascii_text) (Some example_alerts).

(** The order of the arrivals list: by minutes, ascending. *)
Definition by_minutes (a b : Arrival) : Prop := arr_minutes a ≤ arr_minutes b.

(** A trips feed for examples: two trains through station 127. *)
Definition example_trips : FeedMessage :=
  [ {| alert := None;
       trip_update := Some {| trip_route_id := "1";
                              stop_time_update :=
                                [ {| stop_id := "127N"; arrival := Some 1000 |};
                                  {| stop_id := "128N"; arrival := Some 1100 |};
                                  {| stop_id := "127S"; arrival := None |} ] |} |};
    {| alert := None;
       trip_update := Some {| trip_route_id := "2";
                              stop_time_update :=
                                [ {| stop_id := "127S"; arrival := Some 400 |} ] |} |} ].

(** A row from its fields, for examples. *)
Definition row (fields : list (string * string)) : Row := list_to_map fields.

(** An archive for examples: route R runs A, B, back through A, then C. *)
Definition loop_tables : Tables :=
  {| stops_txt :=
       [ row [("stop_id", "A"); ("stop_name", "Alpha"); ("stop_lat", "1"); ("stop_lon", "5")];
         row [("stop_id", "B"); ("stop_name", "Beta"); ("stop_lat", "2"); ("stop_lon", "6")];
         row [("stop_id", "C"); ("stop_name", "Gamma"); ("stop_lat", "3"); ("stop_lon", "7")] ];
     trips_txt := [ row [("trip_id", "T1"); ("route_id", "R")] ];
     stop_times_txt :=
       [ row [("trip_id", "T1"); ("stop_id", "A"); ("stop_sequence", "1")];
         row [("trip_id", "T1"); ("stop_id", "B"); ("stop_sequence", "2")];
         row [("trip_id", "T1"); ("stop_id", "A"); ("stop_sequence", "3")];
         row [("trip_id", "T1"); ("stop_id", "C"); ("stop_sequence", "4")] ] |}.

(** The stops mapping of the example archive. *)
Definition loop_stops : ODict.t (Stop (H := decimal_numbers)) :=
  fold_left (map_stop (H := decimal_numbers)) (stops_txt loop_tables) [].

(** ** Further notions for the properties of the code *)

(** The messages recorded for a route in a mapping, none when the route is
    not mapped. *)
Definition messages_of (route_status : gmap string RouteStatus)
    (route_id : string) : list Message :=
  from_option rs_messages [] (route_status !! route_id).

(** The alerts of a feed that name a route, in feed order, once for every
    informed entity of the alert that carries the route. *)
Definition alerts_naming (route_id : string) (entities : FeedMessage) : list Alert :=
  entities ≫= λ e,
    match alert e with
    | Some a => filter (λ i, i = Some route_id) (informed_entity a) ≫= λ _, [a]
    | None => []
    end.



(** The stop-time updates that [get_arrivals] answers with: the updates of
    the fetched feeds whose stop id starts with the station id and which
    carry an arrival, each with the route of its trip, in feed order. *)
Definition station_updates (station_id : string)
    (feeds : list (option FeedMessage)) : list (string * StopTimeUpdate) :=
  feeds ≫= λ feed, default [] feed ≫= λ entity,
    match trip_update entity with
    | Some trip =>
        (λ stop_time, (trip_route_id trip, stop_time)) <$>
        filter (λ stop_time,
                  PyStr.startswith (stop_id stop_time) station_id = true ∧
                  is_Some (arrival stop_time))
               (stop_time_update trip)
    | None => []
    end.

(** The arrival emitted for the [k]-th of those updates, the clock being
    read once for each. *)
Definition arrival_of (clock : Clock) (k : nat) (u : string * StopTimeUpdate)
  : Arrival :=
  {| arr_line := u.1;
     arr_direction := if PyStr.endswith (stop_id u.2) "N" then "Uptown" else "Downtown";
     arr_minutes := minutes_until (default 0 (arrival u.2)) (clock k) |}.

(** All the arrivals collected by [get_arrivals], before sorting. *)
Definition collected_arrivals (clock : Clock) (station_id : string)
    (feeds : list (option FeedMessage)) : list Arrival :=
  (fold_left (collect_feed clock station_id) feeds ([], 0%nat)).1.

(** The first occurrences of the elements of a list, in order. *)
Fixpoint nub (l : list string) : list string :=
  match l with
  | [] => []
  | x :: l' => x :: filter (λ y, y ≠ x) (nub l')
  end.

Section TopologyNotions.
Context `{PyNumbers}.

(** The coordinates of a stop, and what a stop is apart from its lines. *)
Definition stop_coords (s : Stop) : pyfloat * pyfloat := (stop_lat s, stop_lon s).

Definition stop_place (s : Stop) : string * string * pyfloat * pyfloat :=
  (stop_stop_id s, stop_name s, stop_lat s, stop_lon s).

Definition entry_place (se : StopEntry) : string * string * pyfloat * pyfloat :=
  (se_id se, se_name se, se_lat se, se_lon se).

(** The coordinates under which a stop id is known to a stops mapping. *)
Definition coords_in (stops : ODict.t Stop) (stop_id : string)
  : option (pyfloat * pyfloat) :=
  stop_coords <$> ODict.get stop_id stops.

(** A row of [stops.txt] is a row of the stop [stop_id]. *)
Definition row_of_stop (stop_id : string) (r : Row) : Prop :=
  truthy_field (r !! "stop_id") = Some stop_id.

#[global] Instance row_of_stop_dec (stop_id : string) (r : Row) :
  Decision (row_of_stop stop_id r).
Proof. unfold row_of_stop. apply _. Defined.

(** The name and the coordinates that a row of [stops.txt] gives its stop. *)
Definition row_name (stop_id : string) (r : Row) : string :=
  match truthy_field (r !! "stop_name") with
  | Some n => n
  | None => default stop_id (truthy_field (r !! "stop_desc"))
  end.

Definition row_coords (r : Row) : pyfloat * pyfloat :=
  match float_or_zero (r !! "stop_lat"), float_or_zero (r !! "stop_lon") with
  | Some lat, Some lon => (lat, lon)
  | _, _ => (float_zero, float_zero)
  end.

(** The stops mapping, the trips of each route and the representative trip
    of a route, as [build_topology] computes them from the tables. *)
Definition stops_of (tb : Tables) : ODict.t Stop :=
  fold_left map_stop (stops_txt tb) [].

Definition route_trips_of (tb : Tables) : option (ODict.t (list (list string))) :=
  trip_stopseq ← try_each collect_stop_seq (stop_times_txt tb) [];
  Some (fold_left (group_trip (fold_left map_trip (trips_txt tb) ∅)) trip_stopseq []).

Definition representative (tb : Tables) (route_id : string) : option (list string) :=
  route_trips ← route_trips_of tb;
  trips ← ODict.get route_id route_trips;
  max_by_len trips.

End TopologyNotions.

Section TopologyPlaces.
Context `{PyNumbers}.

(** The keys of a stops mapping with what each stop is apart from its
    lines, in the order of the mapping. *)
Definition places (stops : ODict.t Stop)
  : list (string * (string * string * pyfloat * pyfloat)) :=
  (λ kv, (kv.1, stop_place kv.2)) <$> stops.

End TopologyPlaces.

Section TopologyPolyline.
Context `{PyNumbers}.

(** The polyline of a route with a given representative trip, over a stops
    mapping. *)
Definition polyline_of (stops : ODict.t Stop) (route_id : string)
    (best : list string) : Polyline :=
  {| pl_id := route_id; pl_name := route_id;
     pl_coordinates := omap (coords_in stops) (nub best) |}.

End TopologyPolyline.

(** A row of [stop_times.txt] whose sequence number [int] rejects. *)
Definition bad_sequence `{PyNumbers} (r : Row) : Prop :=
  ∃ s, truthy_field (r !! "stop_sequence") = Some s ∧ int_of_str s = None.

(** The topology of the example archive. *)
Definition loop_polylines : ODict.t (Polyline (H := decimal_numbers)) :=
  [("R", @Build_Polyline decimal_numbers "R" "R" [(1, 5); (2, 6); (3, 7)])].

Definition loop_stop_entries : list (StopEntry (H := decimal_numbers)) :=
  [ @Build_StopEntry decimal_numbers "A" "Alpha" 1 5 ["R"];
    @Build_StopEntry decimal_numbers "B" "Beta" 2 6 ["R"];
    @Build_StopEntry decimal_numbers "C" "Gamma" 3 7 ["R"] ].

(** An archive whose stop times hold a sequence number that is no number,
    in a row without a trip id. *)
Definition bad_tables : Tables :=
  {| stops_txt := stops_txt loop_tables;
     trips_txt := trips_txt loop_tables;
     stop_times_txt :=
       stop_times_txt loop_tables ++
       [ row [("stop_id", "A"); ("stop_sequence", "x")] ] |}.

(** ** Users, favorites and alert subscriptions

    The tables [users], [favorites] and [alerts] of [init_db], and the
    handlers that read and write them.  A JSON body is the mapping of its
    fields, all strings ([None] when [request.json] raises or is not an
    object, which the handlers answer with 500).  The requests are served
    one after the other.

    Every handler opens a connection of its own.  A handler that answers a
    constraint violation with 409 returns without [rollback()] or
    [close()]: its connection stays behind inside the write transaction
    that sqlite3 opened for the [INSERT], and holds the write lock of the
    database file until the interpreter reclaims it.  Until then the
    statements that write are refused, after the busy timeout, with
    [OperationalError: database is locked], which the handlers answer with
    500; the statements that read are served.  The other errors of SQLite
    are outside the model. *)
Record UserRow := {
  ur_id : Z;
  ur_firebase_uid : string;
  ur_email : string;
  ur_created_at : Z
}.

Record FavoriteRow := {
  fv_id : Z;
  fv_user_id : Z;
  fv_route_id : string;
  fv_route_type : string;
  fv_created_at : Z
}.

Record AlertRow := {
  al_id : Z;
  al_user_id : Z;
  al_route_id : string;
  al_alert_type : string;
  al_enabled : bool;
  al_created_at : Z
}.

(** The rows of each table in insertion order, with the largest id the
    table ever held (AUTOINCREMENT), and whether an abandoned connection
    holds the write lock. *)
Record Database := {
  users : list UserRow;
  users_seq : Z;
  favorites : list FavoriteRow;
  favorites_seq : Z;
  alerts : list AlertRow;
  alerts_seq : Z;
  write_locked : bool
}.

Definition empty_db : Database :=
  {| users := []; users_seq := 0; favorites := []; favorites_seq := 0;
     alerts := []; alerts_seq := 0; write_locked := false |}.

(** The store with the write lock taken or released; the tables are as they
    were, the statement that failed having been undone. *)
Definition set_write_locked (locked : bool) (db : Database) : Database :=
  {| users := users db; users_seq := users_seq db;
     favorites := favorites db; favorites_seq := favorites_seq db;
     alerts := alerts db; alerts_seq := alerts_seq db;
     write_locked := locked |}.

(** A handler returns from its [except sqlite3.IntegrityError] branch: the
    connection is abandoned inside its write transaction. *)
Definition abandon_connection (db : Database) : Database :=
  set_write_locked true db.

(** The interpreter reclaims the abandoned connections: the transaction is
    rolled back and the lock released. *)
Definition reclaim_connections (db : Database) : Database :=
  set_write_locked false db.

(** The id of a row inserted into an AUTOINCREMENT table. *)
Definition next_id (seq : Z) (ids : list Z) : Z := 1 + foldr Z.max seq ids.

(** The JSON bodies of the replies. *)
Inductive Body :=
  | UserCreated (user_id : Z)
  | UserFound (user : UserRow)
  | FavoritesList (favorites : list FavoriteRow)
  | FavoriteCreated (favorite_id : Z)
  | AlertsList (alerts : list AlertRow)
  | AlertCreated (alert_id : Z)
  | Success
  | Failure (error : string)
  | Crashed.

(** A reply: the status code and the body. *)
Definition Reply : Type := Z * Body.

(** [SELECT ... FROM users WHERE firebase_uid = ?] with [fetchone()] *)
Definition find_user (firebase_uid : string) (db : Database) : option UserRow :=
  head (filter (λ u, ur_firebase_uid u = firebase_uid) (users db)).

(** [create_user()].  The [INSERT] takes the write lock before it checks
    the constraint [UNIQUE] of [firebase_uid]. *)
Definition create_user (now : Z) (data : option (gmap string string))
    (db : Database) : Reply * Database :=
  match data with
  | None => ((500, Crashed), db)
  | Some data =>
      match truthy_field (data !! "firebase_uid"), truthy_field (data !! "email") with
      | Some firebase_uid, Some email =>
          if write_locked db
          then ((500, Failure "database is locked"), db)
          else if decide (firebase_uid ∈ ur_firebase_uid <$> users db)
          then ((409, Failure "User already exists"), abandon_connection db)
          else
            let user_id := next_id (users_seq db) (ur_id <$> users db) in
            ((200, UserCreated user_id),
             {| users := users db ++
                  [{| ur_id := user_id; ur_firebase_uid := firebase_uid;
                      ur_email := email; ur_created_at := now |}];
                users_seq := user_id;
                favorites := favorites db; favorites_seq := favorites_seq db;
                alerts := alerts db; alerts_seq := alerts_seq db;
                write_locked := false |})
      | _, _ => ((400, Failure "Missing required fields"), db)
      end
  end.

(** [get_user(firebase_uid)] *)
Definition get_user (firebase_uid : string) (db : Database) : Reply :=
  match find_user firebase_uid db with
  | Some user => (200, UserFound user)
  | None => (404, Failure "User not found")
  end.

(** [SELECT f.* FROM favorites f JOIN users u ON f.user_id = u.id WHERE
    u.firebase_uid = ?]; the rows come in table order here, SQL leaves
    their order open. *)
Definition favorites_of (firebase_uid : string) (db : Database) : list FavoriteRow :=
  favorites db ≫= λ f,
    filter (λ u, fv_user_id f = ur_id u ∧ ur_firebase_uid u = firebase_uid) (users db)
    ≫= λ _, [f].

(** [get_favorites()]; [firebase_uid] is [request.args.get('firebase_uid')]. *)
Definition get_favorites (firebase_uid : option string) (db : Database) : Reply :=
  match truthy_field firebase_uid with
  | None => (400, Failure "firebase_uid required")
  | Some firebase_uid => (200, FavoritesList (favorites_of firebase_uid db))
  end.

(** [add_favorite()].  The [SELECT] is served under the lock, the [INSERT]
    is not; the 404 branch closes its connection. *)
Definition add_favorite (now : Z) (data : option (gmap string string))
    (db : Database) : Reply * Database :=
  match data with
  | None => ((500, Crashed), db)
  | Some data =>
      match truthy_field (data !! "firebase_uid"), truthy_field (data !! "route_id"),
            truthy_field (data !! "route_type") with
      | Some firebase_uid, Some route_id, Some route_type =>
          match find_user firebase_uid db with
          | None => ((404, Failure "User not found"), db)
          | Some user =>
              let user_id := ur_id user in
              if write_locked db
              then ((500, Failure "database is locked"), db)
              else if decide ((user_id, route_id) ∈
                              (λ f, (fv_user_id f, fv_route_id f)) <$> favorites db)
              then ((409, Failure "Favorite already exists"), abandon_connection db)
              else
                let favorite_id :=
                  next_id (favorites_seq db) (fv_id <$> favorites db) in
                ((200, FavoriteCreated favorite_id),
                 {| users := users db; users_seq := users_seq db;
                    favorites := favorites db ++
                      [{| fv_id := favorite_id; fv_user_id := user_id;
                          fv_route_id := route_id; fv_route_type := route_type;
                          fv_created_at := now |}];
                    favorites_seq := favorite_id;
                    alerts := alerts db; alerts_seq := alerts_seq db;
                    write_locked := false |})
          end
      | _, _, _ => ((400, Failure "Missing required fields"), db)
      end
  end.

(** [delete_favorite(favorite_id)] *)
Definition delete_favorite (favorite_id : Z) (db : Database) : Reply * Database :=
  if write_locked db
  then ((500, Failure "database is locked"), db)
  else
    ((200, Success),
     {| users := users db; users_seq := users_seq db;
        favorites := filter (λ f, fv_id f ≠ favorite_id) (favorites db);
        favorites_seq := favorites_seq db;
        alerts := alerts db; alerts_seq := alerts_seq db;
        write_locked := false |}).

(** [SELECT a.* FROM alerts a JOIN users u ON a.user_id = u.id WHERE
    u.firebase_uid = ?] *)
Definition alerts_of (firebase_uid : string) (db : Database) : list AlertRow :=
  alerts db ≫= λ a,
    filter (λ u, al_user_id a = ur_id u ∧ ur_firebase_uid u = firebase_uid) (users db)
    ≫= λ _, [a].

(** [get_alerts()] *)
Definition get_alerts (firebase_uid : option string) (db : Database) : Reply :=
  match truthy_field firebase_uid with
  | None => (400, Failure "firebase_uid required")
  | Some firebase_uid => (200, AlertsList (alerts_of firebase_uid db))
  end.

(** [create_alert()]; the column [enabled] takes its default, 1. *)
Definition create_alert (now : Z) (data : option (gmap string string))
    (db : Database) : Reply * Database :=
  match data with
  | None => ((500, Crashed), db)
  | Some data =>
      match truthy_field (data !! "firebase_uid"), truthy_field (data !! "route_id"),
            truthy_field (data !! "alert_type") with
      | Some firebase_uid, Some route_id, Some alert_type =>
          match find_user firebase_uid db with
          | None => ((404, Failure "User not found"), db)
          | Some user =>
              if write_locked db
              then ((500, Failure "database is locked"), db)
              else
                let alert_id := next_id (alerts_seq db) (al_id <$> alerts db) in
                ((200, AlertCreated alert_id),
                 {| users := users db; users_seq := users_seq db;
                    favorites := favorites db; favorites_seq := favorites_seq db;
                    alerts := alerts db ++
                      [{| al_id := alert_id; al_user_id := ur_id user;
                          al_route_id := route_id; al_alert_type := alert_type;
                          al_enabled := true; al_created_at := now |}];
                    alerts_seq := alert_id;
                    write_locked := false |})
          end
      | _, _, _ => ((400, Failure "Missing required fields"), db)
      end
  end.

(** [delete_alert(alert_id)] *)
Definition delete_alert (alert_id : Z) (db : Database) : Reply * Database :=
  if write_locked db
  then ((500, Failure "database is locked"), db)
  else
    ((200, Success),
     {| users := users db; users_seq := users_seq db;
        favorites := favorites db; favorites_seq := favorites_seq db;
        alerts := filter (λ a, al_id a ≠ alert_id) (alerts db);
        alerts_seq := alerts_seq db;
        write_locked := false |}).

(** The requests of the account endpoints, and their effect on the store. *)
Inductive Request :=
  | CreateUser (now : Z) (data : option (gmap string string))
  | GetUser (firebase_uid : string)
  | GetFavorites (firebase_uid : option string)
  | AddFavorite (now : Z) (data : option (gmap string string))
  | DeleteFavorite (favorite_id : Z)
  | GetAlerts (firebase_uid : option string)
  | CreateAlert (now : Z) (data : option (gmap string string))
  | DeleteAlert (alert_id : Z).

Definition handle (req : Request) (db : Database) : Reply * Database :=
  match req with
  | CreateUser now data => create_user now data db
  | GetUser firebase_uid => (get_user firebase_uid db, db)
  | GetFavorites firebase_uid => (get_favorites firebase_uid db, db)
  | AddFavorite now data => add_favorite now data db
  | DeleteFavorite favorite_id => delete_favorite favorite_id db
  | GetAlerts firebase_uid => (get_alerts firebase_uid db, db)
  | CreateAlert now data => create_alert now data db
  | DeleteAlert alert_id => delete_alert alert_id db
  end.

(** What happens to the store: a request is served, or the interpreter
    reclaims the connections that the handlers abandoned.  When it does is
    the choice of its garbage collector. *)
Inductive Event :=
  | Serve (req : Request)
  | Reclaim.

Definition step (db : Database) (ev : Event) : Database :=
  match ev with
  | Serve req => (handle req db).2
  | Reclaim => reclaim_connections db
  end.

Definition run_events (events : list Event) (db : Database) : Database :=
  fold_left step events db.

(** The constraints that the schema declares and the handlers keep: the
    keys of the tables, the ids below the AUTOINCREMENT counters, and the
    user of every favorite and alert.  They bear on the tables, whoever
    holds the lock. *)
Record db_consistent (db : Database) : Prop := {
  uids_distinct : NoDup (ur_firebase_uid <$> users db);
  user_ids_distinct : NoDup (ur_id <$> users db);
  favorite_ids_distinct : NoDup (fv_id <$> favorites db);
  alert_ids_distinct : NoDup (al_id <$> alerts db);
  favorites_distinct :
    NoDup ((λ f, (fv_user_id f, fv_route_id f)) <$> favorites db);
  user_ids_issued : Forall (λ u, ur_id u ≤ users_seq db) (users db);
  favorite_ids_issued : Forall (λ f, fv_id f ≤ favorites_seq db) (favorites db);
  alert_ids_issued : Forall (λ a, al_id a ≤ alerts_seq db) (alerts db);
  favorites_have_user :
    Forall (λ f, fv_user_id f ∈ ur_id <$> users db) (favorites db);
  alerts_have_user :
    Forall (λ a, al_user_id a ∈ ur_id <$> users db) (alerts db)
}.

(** A request body from its fields, for examples. *)
Definition body (fields : list (string * string)) : option (gmap string string) :=
  Some (list_to_map fields).

(** Fields of example requests. *)
Definition new_user_fields : gmap string string :=
  list_to_map [("firebase_uid", "u1"); ("email", "a@b.c")].

Definition favorite_fields : gmap string string :=
  list_to_map [("firebase_uid", "u1"); ("route_id", "A"); ("route_type", "subway")].

Definition alert_fields : gmap string string :=
  list_to_map [("firebase_uid", "u1"); ("route_id", "A"); ("alert_type", "delay")].

(** A store with one user. *)
Definition one_user_db : Database :=
  (create_user 10 (Some new_user_fields) empty_db).2.

(** A store with one user and one favorite. *)
Definition one_favorite_db : Database :=
  (add_favorite 11 (Some favorite_fields) one_user_db).2.

(** * Properties *)

(** ** Strings *)

Lemma app_empty (s : string) : "" +:+ s = s.
Proof. reflexivity. Qed.

Lemma app_String (c : ascii) (s t : string) :
  String c s +:+ t = String c (s +:+ t).
Proof. reflexivity. Qed.

Lemma app_assoc_str (a b c : string) : (a +:+ b) +:+ c = a +:+ b +:+ c.
Proof.
  induction a as [|x a IH]; [reflexivity|].
  rewrite !app_String. by rewrite IH.
Qed.

Lemma app_empty_r (s : string) : s +:+ "" = s.
Proof. induction s as [|c s IH]; [reflexivity|]. by rewrite app_String, IH. Qed.

Lemma ascii_lower_app (a b : string) :
  PyStr.ascii_lower (a +:+ b) = PyStr.ascii_lower a +:+ PyStr.ascii_lower b.
Proof.
  induction a as [|c a IH]; [reflexivity|].
  rewrite app_String. simpl. rewrite app_String. by rewrite IH.
Qed.

(** A split of the lowered text comes from a split of the text. *)
Lemma ascii_lower_split (s a b : string) :
  PyStr.ascii_lower s = a +:+ b →
  ∃ a' b', s = a' +:+ b' ∧ PyStr.ascii_lower a' = a ∧ PyStr.ascii_lower b' = b.
Proof.
  revert s. induction a as [|c a IH]; intros s Hs.
  - exists "", s. by rewrite !app_empty in *.
  - destruct s as [|d s]; [discriminate|].
    rewrite app_String in Hs. simpl in Hs. injection Hs as Hc Hs.
    destruct (IH _ Hs) as (a' & b' & -> & Ha & Hb).
    exists (String d a'), b'. rewrite app_String. simpl. by rewrite Hc, Ha, Hb.
Qed.

(** Lowering a letter keeps it in ASCII, and takes no code unit into it. *)
Lemma lower_char_ascii (c : ascii) :
  (N_of_ascii (PyStr.lower_char c) <? 128)%N = (N_of_ascii c <? 128)%N.
Proof. destruct c as [[] [] [] [] [] [] [] []]; reflexivity. Qed.

Lemma is_ascii_lower (s : string) :
  PyStr.is_ascii (PyStr.ascii_lower s) = PyStr.is_ascii s.
Proof.
  induction s as [|c s IH]; [reflexivity|].
  simpl. by rewrite lower_char_ascii, IH.
Qed.

(** On a text of ASCII characters [str.lower] lowers the letters A-Z and
    nothing else. *)
Lemma str_lower_of_ascii `{PyUnicode} (s : string) :
  PyStr.is_ascii s = true → str_lower s = PyStr.ascii_lower s.
Proof.
  intros Hs.
  destruct (str_lower_ascii "" s "" Hs) as (pre' & post' & Hl & Hpre & Hpost).
  rewrite (Hpre eq_refl), (Hpost eq_refl) in Hl.
  by rewrite app_empty, !app_empty_r in Hl.
Qed.

Lemma startswith_spec (s p : string) :
  PyStr.startswith s p = true ↔ ∃ post, s = p +:+ post.
Proof.
  revert s. induction p as [|a p IH]; intros s; simpl.
  - split; [intros _; by exists s | done].
  - destruct s as [|b s].
    + split; [done | intros [post Hp]; by rewrite app_String in Hp].
    + rewrite andb_true_iff, bool_decide_eq_true, IH. split.
      * intros [-> [post ->]]. by exists post.
      * intros [post Hp]. rewrite app_String in Hp. injection Hp as -> ->. eauto.
Qed.

(** [kw in s] holds exactly when [kw] is a substring of [s]. *)
Lemma contains_spec (kw s : string) :
  PyStr.contains kw s = true ↔ ∃ pre post, s = pre +:+ kw +:+ post.
Proof.
  induction s as [|c s IH].
  - simpl. rewrite orb_false_r, startswith_spec. split.
    + intros [post Hp]. by exists "", post.
    + intros (pre & post & Hp). destruct pre as [|x pre].
      * rewrite app_empty in Hp. eauto.
      * by rewrite app_String in Hp.
  - change (PyStr.contains kw (String c s))
      with (PyStr.startswith (String c s) kw || PyStr.contains kw s).
    rewrite orb_true_iff, startswith_spec, IH. split.
    + intros [[post Hp] | (pre & post & ->)].
      * by exists "", post.
      * by exists (String c pre), post.
    + intros (pre & post & Hp). destruct pre as [|x pre].
      * left. rewrite app_empty in Hp. eauto.
      * right. rewrite app_String in Hp. injection Hp as -> ->. eauto.
Qed.

(** On lowered ASCII text, [kw in text] for a lower-case keyword decides
    the occurrence of [kw] up to the case of the letters. *)
Lemma contains_lower_occurs_ci (kw text : string) :
  PyStr.ascii_lower kw = kw →
  PyStr.contains kw (PyStr.ascii_lower text) = true ↔ PyStr.occurs_ci kw text.
Proof.
  intros Hkw. rewrite contains_spec. unfold PyStr.occurs_ci. split.
  - intros (pre & post & Hs).
    destruct (ascii_lower_split _ _ _ Hs) as (pre' & rest & -> & _ & Hrest).
    destruct (ascii_lower_split _ _ _ Hrest) as (mid & post' & -> & Hmid & _).
    exists pre', mid, post'. by rewrite Hkw.
  - intros (pre & mid & post & -> & Hmid).
    exists (PyStr.ascii_lower pre), (PyStr.ascii_lower post).
    by rewrite !ascii_lower_app, Hmid, Hkw.
Qed.

(** A keyword that occurs in a text in any case of its letters is matched,
    whatever else the text holds. *)
Lemma occurs_ci_matches `{PyUnicode} (kw text : string) :
  keyword kw → PyStr.occurs_ci kw text → matches text kw.
Proof.
  intros [Hascii Hlow] (pre & mid & post & -> & Hmid).
  rewrite Hlow in Hmid.
  assert (Hm : PyStr.is_ascii mid = true).
  { by rewrite <- is_ascii_lower, Hmid. }
  destruct (str_lower_ascii pre mid post Hm) as (pre' & post' & Hl & _).
  unfold matches. rewrite Hl, Hmid. apply contains_spec. by exists pre', post'.
Qed.

(** In a text of ASCII characters nothing else is matched. *)
Lemma matches_ascii `{PyUnicode} (kw text : string) :
  PyStr.is_ascii text = true → keyword kw →
  matches text kw ↔ PyStr.occurs_ci kw text.
Proof.
  intros Htext [Hascii Hlow]. split; [|by apply occurs_ci_matches].
  unfold matches. rewrite (str_lower_of_ascii _ Htext).
  by apply contains_lower_occurs_ci.
Qed.

(** ** Alert classifier: severity of one text *)

(** The severity of a text of ASCII characters does not depend on the
    Unicode tables. *)
Lemma classify_severity_ascii `{PyUnicode} (text : string) :
  PyStr.is_ascii text = true →
  classify_severity text = classify_severity (H := ascii_text) text.
Proof.
  intros Htext. unfold classify_severity.
  by rewrite (str_lower_of_ascii _ Htext).
Qed.

Example classify_delays `{PyUnicode} :
  classify_severity "A train experiencing delays due to signal problems" = "delay".
Proof. by rewrite classify_severity_ascii. Qed.

Example classify_suspended `{PyUnicode} :
  classify_severity "Service suspended in both directions" = "service-change".
Proof. by rewrite classify_severity_ascii. Qed.

(** The priority order: a delayed train that skips stops is a delay, a
    suspension with delays is a service change. *)
Example classify_priority `{PyUnicode} :
  classify_severity "Delayed trains skip 3 stops" = "delay" ∧
  classify_severity "Delays; NO SERVICE at Canal St" = "service-change" ∧
  classify_severity "Express trains running local" = "service-change" ∧
  classify_severity "Elevator outage" = "good".
Proof. split_and!; by rewrite classify_severity_ascii. Qed.

(** Outside ASCII more is matched: where the interpreter lowers the Kelvin
    sign (U+212A, the code units 226 132 170) to the letter k, as CPython
    does, a text that spells SKIP with it is a service change, though "skip"
    does not occur in it in any case of the ASCII letters. *)
Example classify_kelvin_sign `{PyUnicode} :
  str_lower "SKIP" = "skip" →
  classify_severity "SKIP" = "service-change" ∧
  ¬ PyStr.occurs_ci "skip" "SKIP".
Proof.
  intros Hlow. split.
  - unfold classify_severity. by rewrite Hlow.
  - by rewrite <- (contains_lower_occurs_ci "skip" _ eq_refl).
Qed.

Lemma classify_severity_known `{PyUnicode} (text : string) :
  known_status (classify_severity text).
Proof.
  unfold classify_severity, known_status.
  repeat match goal with
         | |- context [if ?b then _ else _] => destruct b
         end; auto.
Qed.

(** A text that contains [b] contains every substring [a] of [b]. *)
Lemma contains_substring (a b s : string) :
  PyStr.contains a b = true → PyStr.contains b s = true →
  PyStr.contains a s = true.
Proof.
  rewrite !contains_spec.
  intros (p1 & q1 & ->) (p2 & q2 & ->).
  exists (p2 +:+ p1), (q1 +:+ q2). by rewrite !app_assoc_str.
Qed.

Ltac case_keyword :=
  match goal with
  | |- context [PyStr.contains ?kw ?t] =>
      destruct (PyStr.contains kw t); simpl; try (intuition congruence)
  end.

(** The keyword groups decide the severity in priority order, the first
    group that is matched winning. *)
Lemma classify_severity_groups `{PyUnicode} (text : string) :
  first_match_wins (matches text) (classify_severity text).
Proof.
  unfold first_match_wins, mentions_suspension, mentions_delay, mentions_skip,
    mentions_express, mentions_schedule, matches, classify_severity.
  cbv zeta.
  generalize (contains_substring "skip" "skip stops" (str_lower text) eq_refl).
  repeat case_keyword.
Qed.

(** C4. The severity of a combined text follows the keyword groups in
    priority order, the first group that is found winning: suspension
    keywords give service-change; otherwise delay keywords give delay;
    otherwise "skip"/"skips" give service-change; otherwise "express" with
    "running" or "skip" gives service-change; otherwise the schedule
    keywords give service-change; otherwise good.  A keyword is found when
    it occurs in the lowered text, [text.lower()].  In a text of ASCII
    characters that is exactly when it occurs in the text in some case of
    its letters, so that the classification is the case-insensitive one;
    in any text a keyword that occurs in some case of its letters is found,
    whatever else the text holds.  In particular a text with "suspended" in
    any case is a service-change, and a text with "delay" in any case and
    none of the service-change keywords is a delay. *)
Theorem classify_severity_cascade `{PyUnicode} (text : string) :
  first_match_wins (matches text) (classify_severity text) ∧
  (PyStr.is_ascii text = true →
   first_match_wins (λ kw, PyStr.occurs_ci kw text) (classify_severity text)) ∧
  (∀ kw, keyword kw → PyStr.occurs_ci kw text → matches text kw) ∧
  (PyStr.occurs_ci "suspended" text → classify_severity text = "service-change") ∧
  (PyStr.occurs_ci "delay" text →
   ¬ mentions_suspension (matches text) → ¬ mentions_skip (matches text) →
   ¬ mentions_express (matches text) → ¬ mentions_schedule (matches text) →
   classify_severity text = "delay").
Proof.
  pose proof (classify_severity_groups text) as Hgroups.
  split_and!.
  - exact Hgroups.
  - intros Htext.
    unfold first_match_wins, mentions_suspension, mentions_delay, mentions_skip,
      mentions_express, mentions_schedule in *.
    repeat match goal with
           | |- context [PyStr.occurs_ci ?kw text] =>
               rewrite <- (matches_ascii kw text Htext (conj eq_refl eq_refl))
           end.
    exact Hgroups.
  - intros kw. apply occurs_ci_matches.
  - intros Hocc. destruct Hgroups as (Hsusp & _). apply Hsusp. left.
    by apply occurs_ci_matches.
  - intros Hocc Hnsusp _ _ _. destruct Hgroups as (_ & Hdelay & _).
    apply Hdelay; [done|]. right; left. by apply occurs_ci_matches.
Qed.

Lemma classify_severity_cascade_witness :
  (PyStr.occurs_ci "suspended" "Service SUSPENDED in both directions" ∧
   classify_severity (H := ascii_text) "Service SUSPENDED in both directions"
     = "service-change") ∧
  (PyStr.occurs_ci "delay" "A train experiencing Delays due to signal problems" ∧
   classify_severity (H := ascii_text)
     "A train experiencing Delays due to signal problems" = "delay") ∧
  (PyStr.occurs_ci "skip" "Trains SKIP 3 stops" ∧
   classify_severity (H := ascii_text) "Trains SKIP 3 stops" = "service-change").
Proof.
  split_and!.
  - by exists "Service ", "SUSPENDED", " in both directions".
  - destruct (classify_severity_cascade (H := ascii_text)
                "Service SUSPENDED in both directions")
      as (_ & _ & _ & Hsusp & _).
    apply Hsusp. by exists "Service ", "SUSPENDED", " in both directions".
  - by exists "A train experiencing ", "Delay", "s due to signal problems".
  - destruct (classify_severity_cascade (H := ascii_text)
                "A train experiencing Delays due to signal problems")
      as (_ & _ & _ & _ & Hdelay).
    apply Hdelay;
      [by exists "A train experiencing ", "Delay", "s due to signal problems"|..];
      unfold mentions_suspension, mentions_skip, mentions_express,
        mentions_schedule, matches; vm_compute; intuition congruence.
  - by exists "Trains ", "SKIP", " 3 stops".
  - destruct (classify_severity_cascade (H := ascii_text) "Trains SKIP 3 stops")
      as (_ & Hascii & _).
    destruct (Hascii eq_refl) as (_ & _ & Hskip & _).
    apply Hskip.
    + unfold mentions_suspension.
      rewrite <- !(contains_lower_occurs_ci _ "Trains SKIP 3 stops" eq_refl).
      vm_compute. intuition congruence.
    + unfold mentions_delay.
      rewrite <- !(contains_lower_occurs_ci _ "Trains SKIP 3 stops" eq_refl).
      vm_compute. intuition congruence.
    + left. by exists "Trains ", "SKIP", " 3 stops".
Defined.

(** ** Alert classifier: the texts of a message *)

(** A slice counts characters, not code units: the separator has five
    characters in ten code units. *)
Example take_counts_characters :
  PyStr.take 5 (separator +:+ "Delays") = separator ∧
  PyStr.take 7 ("A" +:+ separator +:+ "Delays") = "A" +:+ separator +:+ "D".
Proof. split; reflexivity. Qed.

(** ** Alert classifier: the mapping *)

Lemma known_status_priority (status : string) :
  known_status status → status_priority status = Some (rank status).
Proof. by intros [-> | [-> | ->]]. Qed.

Lemma status_priority_known (status : string) (p : nat) :
  status_priority status = Some p → known_status status.
Proof.
  unfold status_priority, known_status.
  repeat case_decide; naive_solver.
Qed.

(** The rank separates the statuses of the taxonomy. *)
Lemma rank_inj (s1 s2 : string) :
  known_status s1 → known_status s2 → rank s1 = rank s2 → s1 = s2.
Proof. by intros [-> | [-> | ->]] [-> | [-> | ->]]. Qed.

Lemma max_rank_app (l : list Message) (m : Message) :
  max_rank (l ++ [m]) = (max_rank l `max` rank (msg_status m))%nat.
Proof.
  unfold max_rank. induction l as [|x l IH]; simpl; [lia|].
  rewrite IH. lia.
Qed.

Lemma max_rank_bound (l : list Message) (m : Message) :
  m ∈ l → (rank (msg_status m) ≤ max_rank l)%nat.
Proof.
  unfold max_rank. induction 1 as [|? ? ? ? IH]; simpl; lia.
Qed.

(** A non-empty list has a message of the greatest rank. *)
Lemma max_rank_attained (l : list Message) :
  l ≠ [] → ∃ m, m ∈ l ∧ rank (msg_status m) = max_rank l.
Proof.
  unfold max_rank. induction l as [|x l IH]; [done|]. intros _.
  destruct l as [|y l].
  - exists x. split; [left | simpl; lia].
  - destruct IH as (m & Hm & Hr); [done|].
    destruct (decide (rank (msg_status x) ≤ rank (msg_status m))%nat).
    + exists m. split; [by right|]. simpl in *. lia.
    + exists x. split; [left|]. simpl in *. lia.
Qed.

Lemma alert_message_known `{PyUnicode} (a : Alert) :
  known_status (msg_status (alert_message a)).
Proof. apply classify_severity_known. Qed.

(** One step of the fold: no exception, the message is appended to its
    route, the status of the route becomes the greater of the two, and the
    other routes are untouched. *)
Lemma fold_message_step (route_id : string) (m : Message)
    (route_status : gmap string RouteStatus) :
  known_status (msg_status m) →
  (∀ e, route_status !! route_id = Some e → known_status (rs_status e)) →
  let old := default {| rs_status := "good"; rs_messages := [] |}
                     (route_status !! route_id) in
  ∃ status,
    fold_message route_id m route_status =
      Done (<[route_id := {| rs_status := status;
                             rs_messages := rs_messages old ++ [m] |}]> route_status) ∧
    known_status status ∧
    rank status = (rank (rs_status old) `max` rank (msg_status m))%nat ∧
    (rank (msg_status m) ≤ rank (rs_status old) → status = rs_status old)%nat.
Proof.
  intros Hm Hold old.
  assert (Hk : known_status (rs_status old)).
  { subst old. destruct (route_status !! route_id) as [e|]; simpl; [eauto|by left]. }
  unfold fold_message. fold old. simpl.
  rewrite (known_status_priority _ Hm), (known_status_priority _ Hk).
  destruct (rank (rs_status old) <? rank (msg_status m))%nat eqn:Hlt.
  - apply Nat.ltb_lt in Hlt. exists (msg_status m).
    rewrite insert_insert_eq. split_and!; [done|done|lia|lia].
  - apply Nat.ltb_ge in Hlt. exists (rs_status old).
    split_and!; [done|done|lia|done].
Qed.

Lemma fold_message_consistent (route_id : string) (m : Message)
    (route_status : gmap string RouteStatus) :
  known_status (msg_status m) → mapping_consistent route_status →
  ∃ route_status', fold_message route_id m route_status = Done route_status' ∧
                   mapping_consistent route_status'.
Proof.
  intros Hm Hc.
  destruct (fold_message_step route_id m route_status Hm) as (status & -> & Hk & Hr & _).
  { intros e He. by apply Hc in He as [[? _] _]. }
  eexists; split; [done|].
  intros r e. rewrite lookup_insert. case_decide as Hr'.
  - intros [= <-]. simpl. split; [|by destruct (rs_messages _)].
    assert (Hold : entry_consistent
              (default {| rs_status := "good"; rs_messages := [] |}
                       (route_status !! route_id))).
    { destruct (route_status !! route_id) as [e|] eqn:He; simpl.
      - by apply Hc in He as [? _].
      - split_and!; [by left | constructor | done]. }
    destruct Hold as (_ & Hall & Hmax).
    split_and!; simpl; [done| |].
    + apply Forall_app. split; [done|]. by constructor.
    + rewrite max_rank_app, Hr. by rewrite Hmax.
  - apply Hc.
Qed.

(** A loop whose body keeps an invariant and does not raise keeps the
    invariant and does not raise. *)
Lemma for_each_invariant {A S} (P : S → Prop) (body : A → S → outcome S)
    (l : list A) (s : S) :
  (∀ x s, P s → ∃ s', body x s = Done s' ∧ P s') →
  P s → ∃ s', for_each body l s = Done s' ∧ P s'.
Proof.
  intros Hbody. revert s. induction l as [|x l IH]; intros s Hs; simpl.
  - eauto.
  - destruct (Hbody x s Hs) as (s' & -> & Hs'). eauto.
Qed.

Lemma fold_entity_consistent `{PyUnicode} (e : FeedEntity)
    (route_status : gmap string RouteStatus) :
  mapping_consistent route_status →
  ∃ route_status', fold_entity e route_status = Done route_status' ∧
                   mapping_consistent route_status'.
Proof.
  intros Hc. unfold fold_entity. destruct (alert e) as [a|]; [|eauto].
  apply for_each_invariant; [|done].
  intros [route_id|] s Hs; simpl; [|eauto].
  apply fold_message_consistent; [apply alert_message_known | done].
Qed.

(** The classifier never takes its [except] branch, and its mapping is
    consistent. *)
Lemma classifier_consistent `{PyUnicode} (feed : option FeedMessage) :
  mapping_consistent (get_route_status_from_alerts feed) ∧
  ∀ entities, feed = Some entities → raised (for_each fold_entity entities ∅) = false.
Proof.
  assert (H0 : mapping_consistent ∅) by (intros r e; by rewrite lookup_empty).
  destruct feed as [entities|]; simpl; [|done].
  destruct (for_each_invariant mapping_consistent fold_entity entities ∅)
    as (s' & Hs & Hc); [apply fold_entity_consistent | done |].
  rewrite Hs. simpl. split; [done|]. intros ? [= <-]. by rewrite Hs.
Qed.

(** C5. In the mapping of the classifier the status of every route has the
    greatest rank among the messages of the route (good 0, delay 1,
    service-change 2) and is the status of one of them; folding one more
    message into a mapping never lowers the status of its route, and leaves
    it as it is when the message does not rank higher. *)
Theorem route_severity_is_max_rank `{PyUnicode} :
  (∀ (feed : option FeedMessage) (route_id : string) (e : RouteStatus),
     get_route_status_from_alerts feed !! route_id = Some e →
     known_status (rs_status e) ∧
     rank (rs_status e) = max_rank (rs_messages e) ∧
     ∃ m, m ∈ rs_messages e ∧ msg_status m = rs_status e) ∧
  (∀ (route_status : gmap string RouteStatus) (route_id : string)
     (m : Message) (e : RouteStatus),
     route_status !! route_id = Some e →
     ∃ e', outcome_state (fold_message route_id m route_status) !! route_id = Some e' ∧
           rs_messages e' = rs_messages e ++ [m] ∧
           (rank (rs_status e) ≤ rank (rs_status e'))%nat ∧
           ((rank (msg_status m) ≤ rank (rs_status e))%nat →
            rs_status e' = rs_status e)).
Proof.
  split.
  - intros feed route_id e He.
    destruct (classifier_consistent feed) as [Hc _].
    destruct (Hc _ _ He) as [(Hk & Hall & Hmax) Hne].
    split_and!; [done|done|].
    destruct (max_rank_attained _ Hne) as (m & Hin & Hr).
    exists m. split; [done|].
    apply rank_inj; [|done|congruence].
    by apply (proj1 (Forall_forall _ _) Hall).
  - intros route_status route_id m e He.
    unfold fold_message. rewrite He. simpl.
    destruct (status_priority (msg_status m)) as [p|] eqn:Hp;
      [destruct (status_priority (rs_status e)) as [q|] eqn:Hq|]; simpl.
    + assert (Hrm : rank (msg_status m) = p) by (unfold rank; by rewrite Hp).
      assert (Hre : rank (rs_status e) = q) by (unfold rank; by rewrite Hq).
      destruct (q <? p)%nat eqn:Hlt; simpl.
      * apply Nat.ltb_lt in Hlt. eexists. rewrite lookup_insert_eq.
        split; [done|]. simpl. split_and!; [done|lia|lia].
      * eexists. rewrite lookup_insert_eq. split; [done|]. simpl. done.
    + eexists. rewrite lookup_insert_eq. split; [done|]. simpl. done.
    + eexists. rewrite lookup_insert_eq. split; [done|]. simpl. done.
Qed.

Lemma route_severity_is_max_rank_witness :
  (∃ e, get_route_status_from_alerts (H := ascii_text) (Some example_alerts) !! "A"
          = Some e ∧
        rs_status e = "service-change" ∧ rank (rs_status e) = max_rank (rs_messages e)) ∧
  (∃ e e', get_route_status_from_alerts (H := ascii_text) (Some example_alerts) !! "A"
             = Some e ∧
        outcome_state
          (fold_message "A" good_service_message
             (get_route_status_from_alerts (H := ascii_text) (Some example_alerts)))
          !! "A" = Some e' ∧
        rs_status e' = rs_status e).
Proof.
  destruct (get_route_status_from_alerts (H := ascii_text) (Some example_alerts) !! "A")
    as [e|] eqn:He; [|by vm_compute in He].
  assert (Hs : rs_status e = "service-change") by (vm_compute in He; by injection He as <-).
  split.
  - exists e. split; [done|]. split; [done|].
    by destruct (proj1 (route_severity_is_max_rank (H := ascii_text))
                   (Some example_alerts) "A" e He) as (_ & ? & _).
  - destruct (proj2 (route_severity_is_max_rank (H := ascii_text))
                (get_route_status_from_alerts (H := ascii_text) (Some example_alerts)) "A"
                good_service_message e He) as (e' & He' & _ & _ & Hkeep).
    exists e, e'. split; [done|]. split; [done|].
    apply Hkeep. rewrite Hs. vm_compute. lia.
Defined.

(** C10. Every entry of the classifier's mapping has at least one message
    and a status of the taxonomy, so that the aggregator finds the first
    message of every mapped route: its primary text is the text of that
    message. *)
Theorem classifier_entries_have_messages `{PyUnicode} (feed : option FeedMessage)
    (route_id : string) (e : RouteStatus) :
  get_route_status_from_alerts feed !! route_id = Some e →
  rs_messages e ≠ [] ∧
  known_status (rs_status e) ∧
  ∃ m, head (rs_messages e) = Some m ∧
       ∀ info, sd_message (service_entry (get_route_status_from_alerts feed)
                                         (route_id, info)) = msg_text m.
Proof.
  intros He.
  destruct (classifier_consistent feed) as [Hc _].
  destruct (Hc _ _ He) as [(Hk & _ & _) Hne].
  split_and!; [done|done|].
  destruct (rs_messages e) as [|m ms] eqn:Hms; [done|].
  exists m. split; [done|]. intros info. simpl. by rewrite He, Hms.
Qed.

Lemma classifier_entries_have_messages_witness :
  ∃ e, get_route_status_from_alerts (H := ascii_text) (Some example_alerts) !! "L"
         = Some e ∧
       rs_messages e ≠ [] ∧ known_status (rs_status e).
Proof.
  destruct (get_route_status_from_alerts (H := ascii_text) (Some example_alerts) !! "L")
    as [e|] eqn:He; [|by vm_compute in He].
  exists e. split; [done|].
  destruct (classifier_entries_have_messages (Some example_alerts) "L" e He)
    as (? & ? & _).
  done.
Defined.

(** ** Service status aggregator *)

Lemma all_lines_ids_distinct : NoDup (all_lines.*1).
Proof. apply (bool_decide_unpack _). by vm_compute. Qed.

(** C6. For every alert mapping the aggregator emits one entry for each of
    the 24 catalog routes, in catalog order: a route of the mapping with its
    status, all its messages and the text of its first message as primary
    message; a route that is not in the mapping with status good and the
    single synthetic "Good Service" message. *)
Theorem service_data_covers_catalog (route_status : gmap string RouteStatus) :
  length all_lines = 24%nat ∧
  sd_id <$> build_service_data route_status = all_lines.*1 ∧
  ∀ (i : nat) (route_id : string) (info : LineInfo),
    all_lines !! i = Some (route_id, info) →
    ∃ entry, build_service_data route_status !! i = Some entry ∧
      sd_id entry = route_id ∧
      sd_name entry = line_name info ∧ sd_type entry = line_type info ∧
      match route_status !! route_id with
      | Some e =>
          sd_status entry = rs_status e ∧
          sd_messages entry = rs_messages e ∧
          ∀ m, head (rs_messages e) = Some m → sd_message entry = msg_text m
      | None =>
          sd_status entry = "good" ∧
          sd_message entry = "Good Service" ∧
          sd_messages entry = [good_service_message]
      end.
Proof.
  split; [reflexivity|]. split.
  - unfold build_service_data. rewrite <- list_fmap_compose.
    apply list_fmap_ext. intros _ [route_id info] _. simpl.
    by destruct (route_status !! route_id).
  - intros i route_id info Hi.
    exists (service_entry route_status (route_id, info)). split.
    + unfold build_service_data. by rewrite list_lookup_fmap, Hi.
    + simpl. destruct (route_status !! route_id) as [e|]; simpl; [|done].
      split_and!; try done.
      intros m Hm. by destruct (rs_messages e); simplify_eq/=.
Qed.

Lemma service_data_covers_catalog_witness :
  (∃ entry e m, build_service_data example_mapping !! 7%nat = Some entry ∧
     example_mapping !! "A" = Some e ∧ head (rs_messages e) = Some m ∧
     sd_id entry = "A" ∧ sd_status entry = rs_status e ∧
     sd_message entry = msg_text m) ∧
  (∃ entry, build_service_data example_mapping !! 0%nat = Some entry ∧
     sd_id entry = "1" ∧ sd_status entry = "good" ∧
     sd_messages entry = [good_service_message]).
Proof.
  split.
  - destruct (service_data_covers_catalog example_mapping) as (_ & _ & Hall).
    destruct (Hall 7%nat "A" {| line_name := "A Line"; line_type := "subway" |} eq_refl)
      as (entry & Hentry & Hid & _ & _ & Hst).
    destruct (example_mapping !! "A") as [e|] eqn:He; [|by vm_compute in He].
    destruct Hst as (Hstatus & _ & Hfirst).
    destruct (head (rs_messages e)) as [m|] eqn:Hm.
    + exists entry, e, m. split_and!; try done. by apply Hfirst.
    + vm_compute in He. injection He as <-. by vm_compute in Hm.
  - destruct (service_data_covers_catalog example_mapping) as (_ & _ & Hall).
    destruct (Hall 0%nat "1" {| line_name := "1 Line"; line_type := "subway" |} eq_refl)
      as (entry & Hentry & Hid & _ & _ & Hst).
    destruct (example_mapping !! "1") as [e|] eqn:He; [by vm_compute in He|].
    destruct Hst as (Hstatus & _ & Hmsgs).
    by exists entry.
Defined.

(** No alerts at all: every catalog route is in good service. *)
Example no_alerts_all_good :
  Forall (λ entry, sd_status entry = "good") (build_service_data ∅).
Proof. unfold build_service_data. simpl. repeat constructor. Qed.

(** ** The status cache *)

Lemma next_rowid_above (t : CacheTable) :
  Forall (λ old, row_id old < next_rowid t) (cache_rows t).
Proof.
  unfold next_rowid. generalize (cache_seq t). induction (cache_rows t) as [|r l IH];
    intros z; constructor; simpl.
  - lia.
  - eapply Forall_impl; [apply (IH z)|]. simpl. intros; lia.
Qed.

(** The inserted row never conflicts with a row of the table: the insert
    replaces nothing. *)
Lemma insert_or_replace_appends (t : CacheTable) (route_id status message : string)
    (updated_at : Z) :
  cache_rows (insert_or_replace t route_id status message updated_at) =
  cache_rows t ++ [{| row_id := next_rowid t; row_route_id := route_id;
                      row_status := status; row_message := message;
                      row_updated_at := updated_at |}].
Proof.
  unfold insert_or_replace. simpl. f_equal.
  pose proof (next_rowid_above t) as Hlt. revert Hlt.
  generalize (next_rowid t). intros z.
  induction 1 as [|r l Hr _ IH]; [done|].
  rewrite filter_cons_True, IH; [done|].
  unfold conflicts. simpl. rewrite bool_decide_eq_false_2; [done|lia].
Qed.

Lemma cache_results_route_ids (clock : Clock) (service_data : list ServiceEntry)
    (st : CacheTable * nat) :
  row_route_id <$> cache_rows (cache_results clock service_data st).1 =
  (row_route_id <$> cache_rows st.1) ++ (sd_id <$> service_data).
Proof.
  unfold cache_results. revert st.
  induction service_data as [|s l IH]; intros [t tick]; simpl.
  - by rewrite app_nil_r.
  - rewrite IH. cbn [fst]. rewrite insert_or_replace_appends, fmap_app.
    rewrite <- app_assoc. reflexivity.
Qed.

(** Every computation cycle adds a row for each catalog route. *)
Lemma cycle_route_ids `{PyUnicode} (clock : Clock) (feed : option FeedMessage)
    (st : CacheTable * nat) :
  row_route_id <$> cache_rows (get_service_status clock feed st).2.1 =
  (row_route_id <$> cache_rows st.1) ++ all_lines.*1.
Proof.
  unfold get_service_status.
  set (logged := match feed with Some _ => S st.2 | None => st.2 end).
  pose proof (cache_results_route_ids clock
                (build_service_data (get_route_status_from_alerts feed))
                (st.1, logged)) as Hc.
  destruct (cache_results _ _ (st.1, logged)) as [t tick].
  cbn [fst snd] in *. rewrite Hc.
  f_equal. apply service_data_covers_catalog.
Qed.

Lemma rows_of_route_length (route_id : string) (t : CacheTable) :
  length (rows_of_route route_id t) =
  length (filter (λ r, r = route_id) (row_route_id <$> cache_rows t)).
Proof.
  unfold rows_of_route. induction (cache_rows t) as [|r l IH]; [done|].
  rewrite fmap_cons. destruct (decide (row_route_id r = route_id)) as [Heq|Hne].
  - rewrite !filter_cons_True by (done || by apply bool_decide_pack).
    simpl. by rewrite IH.
  - rewrite !filter_cons_False by (done || by intros ?%bool_decide_unpack).
    done.
Qed.

(** The table grows by 24 rows at every cycle. *)
Lemma cache_grows_every_cycle `{PyUnicode} (clock : Clock)
    (feeds : list (option FeedMessage))
    (st : CacheTable * nat) :
  length (cache_rows (run_cycles clock feeds st).1) =
  (length (cache_rows st.1) + 24 * length feeds)%nat.
Proof.
  unfold run_cycles. revert st.
  induction feeds as [|feed feeds IH]; intros st; cbn [fold_left length].
  - lia.
  - rewrite IH.
    rewrite <- (length_fmap row_route_id (cache_rows (get_service_status _ _ _).2.1)).
    rewrite cycle_route_ids, length_app, !length_fmap.
    change (length all_lines) with 24%nat. lia.
Qed.

(** C2 (the code departs from the claim). After two computation cycles on an
    empty cache, whatever the alerts feeds held, the store has two rows for
    route A: [INSERT OR REPLACE] finds no conflicting row, the only key of
    the table being the generated [id].  In general every cycle leaves the
    rows of the table in place and adds a row for each of the 24 routes. *)
Theorem two_cycles_two_rows `{PyUnicode} (clock : Clock)
    (feed1 feed2 : option FeedMessage) :
  length (rows_of_route "A" (run_cycles clock [feed1; feed2] (empty_cache, 0%nat)).1)
    = 2%nat ∧
  ∀ (feeds : list (option FeedMessage)) (st : CacheTable * nat),
    length (cache_rows (run_cycles clock feeds st).1) =
    (length (cache_rows st.1) + 24 * length feeds)%nat.
Proof.
  split.
  - rewrite rows_of_route_length. unfold run_cycles. cbn [fold_left].
    rewrite !cycle_route_ids. reflexivity.
  - apply cache_grows_every_cycle.
Qed.

(** ** Sorting *)

Section StableSort.
Context {A : Type} (key : A → Z).

Lemma insert_sorted_Permutation (x : A) (l : list A) :
  insert_sorted (λ x y, key x <=? key y) x l ≡ₚ x :: l.
Proof.
  induction l as [|y l IH]; simpl; [done|].
  destruct (key x <=? key y); [done|]. rewrite IH. apply perm_swap.
Qed.

Lemma sort_by_key_Permutation (l : list A) : sort_by_key key l ≡ₚ l.
Proof.
  unfold sort_by_key, stable_sort. induction l as [|x l IH]; simpl; [done|].
  by rewrite insert_sorted_Permutation, IH.
Qed.

Lemma insert_sorted_StronglySorted (x : A) (l : list A) :
  StronglySorted (λ x y, key x ≤ key y) l →
  StronglySorted (λ x y, key x ≤ key y)
                 (insert_sorted (λ x y, key x <=? key y) x l).
Proof.
  induction 1 as [|y l Hl IH Hy]; simpl.
  - repeat constructor.
  - destruct (Z.leb_spec (key x) (key y)) as [Hle|Hgt].
    + constructor; [by constructor|]. constructor; [done|].
      eapply Forall_impl; [exact Hy|]. simpl. intros; lia.
    + constructor; [done|].
      rewrite insert_sorted_Permutation. constructor; [lia|done].
Qed.

Lemma sort_by_key_StronglySorted (l : list A) :
  StronglySorted (λ x y, key x ≤ key y) (sort_by_key key l).
Proof.
  unfold sort_by_key, stable_sort. induction l as [|x l IH]; simpl.
  - constructor.
  - by apply insert_sorted_StronglySorted.
Qed.

(** The sort is stable: the elements of one key keep their order. *)
Lemma insert_sorted_stable (k : Z) (x : A) (l : list A) :
  filter (λ y, key y = k) (insert_sorted (λ x y, key x <=? key y) x l) =
  filter (λ y, key y = k) (x :: l).
Proof.
  induction l as [|y l IH]; simpl; [done|].
  destruct (Z.leb_spec (key x) (key y)) as [Hle|Hgt]; [done|].
  rewrite (filter_cons _ y), IH, !(filter_cons _ x), (filter_cons _ y).
  repeat case_decide; try done; lia.
Qed.

Lemma sort_by_key_stable (k : Z) (l : list A) :
  filter (λ y, key y = k) (sort_by_key key l) = filter (λ y, key y = k) l.
Proof.
  unfold sort_by_key, stable_sort. induction l as [|x l IH]; simpl; [done|].
  rewrite insert_sorted_stable, !filter_cons. by rewrite IH.
Qed.

Lemma StronglySorted_take (n : nat) (l : list A) :
  StronglySorted (λ x y, key x ≤ key y) l → StronglySorted (λ x y, key x ≤ key y) (take n l).
Proof.
  intros Hl. rewrite <- (take_drop n l) in Hl.
  by apply StronglySorted_app_1_l in Hl.
Qed.
End StableSort.

(** ** Arrival extractor *)

(** A feed that could not be fetched contributes nothing. *)
Lemma failed_feeds_contribute_nothing (clock : Clock) (station_id : string)
    (feeds : list (option FeedMessage)) (st : list Arrival * nat) :
  fold_left (collect_feed clock station_id) feeds st =
  fold_left (collect_feed clock station_id) (filter is_Some feeds) st.
Proof.
  revert st. induction feeds as [|[feed|] feeds IH]; intros st; [done|..].
  - rewrite filter_cons_True by eauto. simpl. apply IH.
  - rewrite filter_cons_False by (by intros [? ?]). simpl. apply IH.
Qed.

(** C7. For every station and every collection of feed results, the list of
    arrivals of the response is sorted ascending by minutes and has at most
    10 entries; the failed feeds contribute nothing to it. *)
Theorem arrivals_sorted_at_most_10 (clock : Clock) (station_id : string)
    (feeds : list (option FeedMessage)) :
  StronglySorted by_minutes (ar_arrivals (get_arrivals clock station_id feeds)) ∧
  (length (ar_arrivals (get_arrivals clock station_id feeds)) ≤ 10)%nat ∧
  get_arrivals clock station_id feeds =
    get_arrivals clock station_id (filter is_Some feeds).
Proof.
  unfold get_arrivals. simpl. split_and!.
  - apply (StronglySorted_take arr_minutes), sort_by_key_StronglySorted.
  - rewrite length_take. lia.
  - by rewrite failed_feeds_contribute_nothing.
Qed.

Example arrivals_at_127 :
  ar_arrivals (get_arrivals (λ _, 700) "127" [None; Some example_trips; None]) =
  [ {| arr_line := "2"; arr_direction := "Downtown"; arr_minutes := 0 |};
    {| arr_line := "1"; arr_direction := "Uptown"; arr_minutes := 5 |} ].
Proof. reflexivity. Qed.

(** C8. A stop-time update of the station with an arrival time emits an
    arrival whose minutes are [max(0, floor((arrival - now) / 60))], [now]
    being the clock reading taken for that update: the quotient is the floor
    of the division, and the minutes are never negative, also when the
    arrival time is before [now]. *)
Theorem minutes_clamped_floor (clock : Clock) (station_id route_id : string)
    (arrivals : list Arrival) (tick : nat) (stop_time : StopTimeUpdate)
    (arrival_time : Z) :
  PyStr.startswith (stop_id stop_time) station_id = true →
  arrival stop_time = Some arrival_time →
  ∃ a, collect_stop_time clock station_id route_id (arrivals, tick) stop_time =
         (arrivals ++ [a], S tick) ∧
       arr_line a = route_id ∧
       arr_minutes a = Z.max 0 ((arrival_time - clock tick) `div` 60) ∧
       (∀ q, 60 * q ≤ arrival_time - clock tick < 60 * q + 60 →
             arr_minutes a = Z.max 0 q) ∧
       0 ≤ arr_minutes a ∧
       (arrival_time < clock tick → arr_minutes a = 0).
Proof.
  intros Hstation Harr. unfold collect_stop_time. rewrite Hstation, Harr.
  eexists. split; [reflexivity|]. unfold minutes_until. simpl.
  split_and!; [done|done| |lia|].
  - intros q Hq. f_equal. symmetry. apply (Z.div_unique_pos _ 60 q (arrival_time - clock tick - 60 * q)); lia.
  - intros Hlt.
    assert ((arrival_time - clock tick) `div` 60 < 0) by (apply Z.div_lt_upper_bound; lia).
    lia.
Qed.

Lemma minutes_clamped_floor_witness :
  ∃ a, collect_stop_time (λ _, 1000) "127" "1" ([], 0%nat)
         {| stop_id := "127N"; arrival := Some 941 |} = ([a], 1%nat) ∧
       arr_minutes a = 0.
Proof.
  destruct (minutes_clamped_floor (λ _, 1000) "127" "1" [] 0%nat
              {| stop_id := "127N"; arrival := Some 941 |} 941 eq_refl eq_refl)
    as (a & Ha & _ & _ & _ & _ & Hpast).
  exists a. split; [exact Ha|]. apply Hpast. lia.
Defined.

(** ** Static schedule loader *)

(** A failed download with no usable fresh copy gives the unavailable
    result and leaves the storage as it was. *)
Lemma failed_download_unavailable (force : bool) (now : Z) (net : HttpResult)
    (fs : option CachedFile) :
  match fs with
  | Some f => force = true ∨ fresh now f = false
  | None => True
  end →
  download_fails net = true →
  download_gtfs_static force now net fs = (None, fs).
Proof.
  intros Hfs Hnet. unfold download_gtfs_static.
  assert (Hreuse : match fs with
                   | Some f => negb force && fresh now f
                   | None => false
                   end = false).
  { destruct fs as [f|]; [|done]. destruct Hfs as [-> | ->]; [done|].
    apply andb_false_r. }
  rewrite Hreuse. destruct net as [|status_code content]; [done|].
  simpl in Hnet. by rewrite Hnet.
Qed.

(** Within the freshness window the cached copy is reused and nothing is
    downloaded. *)
Lemma fresh_cache_reused (now : Z) (net : HttpResult) (f : CachedFile) :
  fresh now f = true →
  download_gtfs_static false now net (Some f) = (Some GTFS_ZIP_PATH, Some f).
Proof. intros Hf. unfold download_gtfs_static. simpl. by rewrite Hf. Qed.

(** C3 (the claim fails). A stale cached copy and a failed download: the
    loader does not return the path of the stale file. *)
Lemma stale_cache_not_returned :
  ¬ ∀ (now : Z) (net : HttpResult) (f : CachedFile),
      fresh now f = false → download_fails net = true →
      (download_gtfs_static false now net (Some f)).1 = Some GTFS_ZIP_PATH.
Proof.
  intros Hclaim.
  specialize (Hclaim 100000 ConnectionError
                {| st_mtime := 0; file_content := Some loop_tables |}
                eq_refl eq_refl).
  discriminate Hclaim.
Qed.

(** C3, amended. When a cached copy exists but is older than the 24-hour
    window and the download fails (a network error or a 4xx/5xx status), the
    loader returns the unavailable result, and the stale file stays on
    storage as it was. *)
Theorem stale_cache_failed_download (now : Z) (net : HttpResult) (f : CachedFile) :
  fresh now f = false → download_fails net = true →
  download_gtfs_static false now net (Some f) = (None, Some f).
Proof.
  intros Hf Hnet. apply failed_download_unavailable; [by right | done].
Qed.

Lemma stale_cache_failed_download_witness :
  download_gtfs_static false 100000 (HttpResponse 503 None)
    (Some {| st_mtime := 0; file_content := Some loop_tables |})
  = (None, Some {| st_mtime := 0; file_content := Some loop_tables |}).
Proof.
  apply (stale_cache_failed_download 100000 (HttpResponse 503 None)
           {| st_mtime := 0; file_content := Some loop_tables |});
    reflexivity.
Defined.

(** ** Route topology builder *)

(** C9. When the download of the static archive fails and there is no
    cached copy, the topology is empty and the endpoint answers with success,
    no routes and no stops. *)
Theorem polylines_empty_when_unavailable `{PyNumbers} (now updated_at : Z)
    (net : HttpResult) :
  download_fails net = true →
  parse_gtfs_static now net None = (([], []), None) ∧
  get_route_polylines now updated_at net None =
    ({| pr_success := true; pr_routes := []; pr_stops := [];
        pr_updated_at := updated_at |}, None).
Proof.
  intros Hnet. unfold get_route_polylines, parse_gtfs_static.
  by rewrite (failed_download_unavailable false now net None I Hnet).
Qed.

Lemma polylines_empty_when_unavailable_witness :
  download_fails (HttpResponse 404 None) = true ∧
  get_route_polylines (H := decimal_numbers) 100000 100002 (HttpResponse 404 None) None =
    ({| pr_success := true; pr_routes := []; pr_stops := [];
        pr_updated_at := 100002 |}, None).
Proof.
  split; [reflexivity|].
  apply (polylines_empty_when_unavailable (H := decimal_numbers)
           100000 100002 (HttpResponse 404 None)).
  reflexivity.
Defined.

(** ODict lookups after an assignment. *)
Lemma odict_get_set {V} (k k' : string) (v : V) (d : ODict.t V) :
  ODict.get k (ODict.set k' v d) = if decide (k = k') then Some v else ODict.get k d.
Proof.
  induction d as [|[k0 v0] d IH]; simpl.
  - done.
  - destruct (decide (k' = k0)) as [->|Hne]; simpl.
    + by destruct (decide (k = k0)).
    + rewrite IH. destruct (decide (k = k0)) as [->|]; [|done].
      by rewrite decide_False.
Qed.

Section Walk.
Context `{PyNumbers}.

(** The set [seen] only grows along a trip. *)
Lemma walk_seen_grows (route_id : string) (l : list string) (w : Walk) :
  walk_seen w ⊆ walk_seen (fold_left (visit_stop route_id) l w).
Proof.
  revert w. induction l as [|id l IH]; intros w; simpl; [done|].
  etrans; [|apply IH]. unfold visit_stop.
  destruct (ODict.get id (walk_stops w)); [|done].
  case_decide; [done|]. simpl. set_solver.
Qed.

(** A stop stays in the stops mapping along a trip. *)
Lemma walk_stops_keep (route_id id : string) (l : list string) (w : Walk) :
  is_Some (ODict.get id (walk_stops w)) →
  is_Some (ODict.get id (walk_stops (fold_left (visit_stop route_id) l w))).
Proof.
  revert w. induction l as [|id' l IH]; intros w Hw; simpl; [done|].
  apply IH. unfold visit_stop.
  destruct (ODict.get id' (walk_stops w)) as [s|]; [|done].
  case_decide; [done|]. simpl. rewrite odict_get_set. by case_decide.
Qed.

(** A visited stop is in [seen]. *)
Lemma visit_stop_seen (route_id id : string) (w : Walk) :
  is_Some (ODict.get id (walk_stops w)) →
  id ∈ walk_seen (visit_stop route_id w id).
Proof.
  intros [s Hs]. unfold visit_stop. rewrite Hs.
  case_decide; [done|]. simpl. set_solver.
Qed.

(** Once a stop of the mapping has been visited, a later occurrence of it in
    the trip is skipped, however many other stops lie in between. *)
Lemma revisited_stop_skipped (route_id id : string) (between : list string)
    (w : Walk) :
  is_Some (ODict.get id (walk_stops w)) →
  fold_left (visit_stop route_id) (id :: between ++ [id]) w =
  fold_left (visit_stop route_id) (id :: between) w.
Proof.
  intros Hid. rewrite app_comm_cons, fold_left_app. simpl.
  set (w1 := fold_left (visit_stop route_id) between (visit_stop route_id w id)).
  assert (Hseen : id ∈ walk_seen w1).
  { apply walk_seen_grows. by apply visit_stop_seen. }
  unfold visit_stop at 1. destruct (ODict.get id (walk_stops w1)); [|done].
  by rewrite decide_True.
Qed.
End Walk.

(** C1 (the code departs from the claim). On a trip A, B, A, C the second
    occurrence of A, which does not follow A directly, is dropped: the
    polyline of the route has the coordinates of A, B and C only.  In
    general, whatever stops lie between two occurrences of a stop of the
    mapping, the later occurrence adds nothing to the walk. *)
Theorem nonadjacent_repeat_dropped :
  fst <$> build_topology (H := decimal_numbers) loop_tables =
    Some [("R", @Build_Polyline decimal_numbers "R" "R" [(1, 5); (2, 6); (3, 7)])] ∧
  ∀ (N : PyNumbers) (route_id id : string) (between : list string) (w : Walk),
    is_Some (ODict.get id (walk_stops w)) →
    fold_left (visit_stop route_id) (id :: between ++ [id]) w =
    fold_left (visit_stop route_id) (id :: between) w.
Proof.
  split.
  - reflexivity.
  - intros N route_id id between w Hid. by apply revisited_stop_skipped.
Qed.

Lemma nonadjacent_repeat_dropped_witness :
  is_Some (ODict.get "A" loop_stops) ∧
  walk_coords (walk_trip "R" ["A"; "B"; "A"] loop_stops) =
  walk_coords (walk_trip "R" ["A"; "B"] loop_stops).
Proof.
  assert (HA : is_Some (ODict.get "A" loop_stops)) by (eexists; reflexivity).
  split; [exact HA|]. unfold walk_trip.
  by rewrite (proj2 nonadjacent_repeat_dropped decimal_numbers "R" "A" ["B"]
                {| walk_coords := []; walk_seen := ∅; walk_stops := loop_stops |} HA).
Defined.

(** * Further properties of the code *)

(** ** Alert classifier: what the mapping holds *)

Lemma messages_of_insert (route_status : gmap string RouteStatus)
    (route_id r : string) (e : RouteStatus) :
  messages_of (<[route_id := e]> route_status) r =
  if decide (route_id = r) then rs_messages e else messages_of route_status r.
Proof.
  unfold messages_of. rewrite lookup_insert. by case_decide.
Qed.

Lemma messages_of_default (route_status : gmap string RouteStatus) (r : string) :
  rs_messages (default {| rs_status := "good"; rs_messages := [] |}
                       (route_status !! r)) = messages_of route_status r.
Proof. unfold messages_of. by destruct (route_status !! r). Qed.

Lemma fold_informed_entities_messages `{PyUnicode} (a : Alert) (r : string)
    (informed : list (option string)) (route_status : gmap string RouteStatus) :
  mapping_consistent route_status →
  ∃ route_status',
    for_each (fold_informed_entity a) informed route_status = Done route_status' ∧
    mapping_consistent route_status' ∧
    messages_of route_status' r =
      messages_of route_status r ++
      (filter (λ i, i = Some r) informed ≫= λ _, [alert_message a]).
Proof.
  revert route_status. induction informed as [|i informed IH]; intros rs Hc; simpl.
  - exists rs. by rewrite app_nil_r.
  - destruct i as [route_id|]; simpl.
    + destruct (fold_message_step route_id (alert_message a) rs
                  (alert_message_known a)) as (status & Hstep & _).
      { intros e He. by apply Hc in He as [[? _] _]. }
      destruct (fold_message_consistent route_id (alert_message a) rs
                  (alert_message_known a) Hc) as (rs1 & Hrs1 & Hc1).
      rewrite Hrs1. destruct (IH rs1 Hc1) as (rs' & -> & Hc' & Hm).
      exists rs'. split_and!; [done|done|]. rewrite Hm.
      rewrite Hstep in Hrs1. injection Hrs1 as <-.
      rewrite messages_of_insert. simpl. rewrite messages_of_default.
      destruct (decide (route_id = r)) as [->|Hne].
      * rewrite filter_cons_True by done. rewrite bind_cons. simpl.
        by rewrite <- app_assoc.
      * rewrite filter_cons_False by congruence. done.
    + destruct (IH rs Hc) as (rs' & -> & Hc' & Hm).
      exists rs'. split_and!; [done|done|].
      by rewrite filter_cons_False.
Qed.

Lemma fmap_bind_const {A B C} (f : B → C) (b : B) (l : list A) :
  f <$> (l ≫= λ _, [b]) = l ≫= λ _, [f b].
Proof.
  induction l as [|x l IH]; [done|]. by rewrite !bind_cons, fmap_app, IH.
Qed.

Lemma fold_entities_messages `{PyUnicode} (r : string) (entities : FeedMessage)
    (route_status : gmap string RouteStatus) :
  mapping_consistent route_status →
  ∃ route_status',
    for_each fold_entity entities route_status = Done route_status' ∧
    mapping_consistent route_status' ∧
    messages_of route_status' r =
      messages_of route_status r ++ (alert_message <$> alerts_naming r entities).
Proof.
  revert route_status. induction entities as [|e entities IH]; intros rs Hc.
  - exists rs. simpl. by rewrite app_nil_r.
  - unfold alerts_naming. rewrite bind_cons. fold (alerts_naming r entities).
    cbn [for_each]. unfold fold_entity at 1. destruct (alert e) as [a|].
    + destruct (fold_informed_entities_messages a r (informed_entity a) rs Hc)
        as (rs1 & -> & Hc1 & Hm1).
      destruct (IH rs1 Hc1) as (rs' & -> & Hc' & Hm).
      exists rs'. split_and!; [done|done|].
      by rewrite Hm, Hm1, fmap_app, <- app_assoc, fmap_bind_const.
    + destruct (IH rs Hc) as (rs' & -> & Hc' & Hm). by exists rs'.
Qed.

Lemma mapping_consistent_empty : mapping_consistent ∅.
Proof. intros r e. by rewrite lookup_empty. Qed.

(** X1. The classifier never takes its [except] branch: on every decoded
    feed the loop over the entities runs to its end, both lookups in
    [status_priority] finding their key. *)
Theorem classifier_never_raises `{PyUnicode} (entities : FeedMessage) :
  ∃ route_status,
    for_each fold_entity entities ∅ = Done route_status ∧
    get_route_status_from_alerts (Some entities) = route_status.
Proof.
  destruct (fold_entities_messages "" entities ∅ mapping_consistent_empty)
    as (rs & Hrs & _ & _).
  exists rs. split; [done|]. simpl. by rewrite Hrs.
Qed.

Lemma classifier_messages_of `{PyUnicode} (entities : FeedMessage) (route_id : string) :
  messages_of (get_route_status_from_alerts (Some entities)) route_id =
  alert_message <$> alerts_naming route_id entities.
Proof.
  destruct (fold_entities_messages route_id entities ∅ mapping_consistent_empty)
    as (rs & Hrs & _ & Hm).
  simpl. rewrite Hrs. simpl. rewrite Hm.
  unfold messages_of. by rewrite lookup_empty.
Qed.

(** X2. The messages of a route in the mapping are the messages of the
    alerts that name the route, in feed order, one for every informed entity
    that carries the route (an alert naming the route twice is recorded
    twice); a route that no alert names is not in the mapping. *)
Theorem classifier_messages `{PyUnicode} (entities : FeedMessage) (route_id : string) :
  rs_messages <$> (get_route_status_from_alerts (Some entities) !! route_id) =
  match alerts_naming route_id entities with
  | [] => None
  | l => Some (alert_message <$> l)
  end.
Proof.
  pose proof (classifier_messages_of entities route_id) as Hm.
  destruct (classifier_consistent (Some entities)) as [Hc _].
  unfold messages_of in Hm.
  destruct (get_route_status_from_alerts (Some entities) !! route_id) as [e|] eqn:He;
    simpl in *.
  - destruct (Hc _ _ He) as [_ Hne]. rewrite Hm in *.
    by destruct (alerts_naming route_id entities).
  - by destruct (alerts_naming route_id entities).
Qed.

Lemma alerts_naming_elem (route_id : string) (entities : FeedMessage) :
  alerts_naming route_id entities ≠ [] ↔
  ∃ e a, e ∈ entities ∧ alert e = Some a ∧ Some route_id ∈ informed_entity a.
Proof.
  split.
  - intros Hne. destruct (alerts_naming route_id entities) as [|a0 l] eqn:Hl; [done|].
    assert (Ha0 : a0 ∈ alerts_naming route_id entities) by (rewrite Hl; left).
    unfold alerts_naming in Ha0. apply list_elem_of_bind in Ha0 as (e & Ha0 & He).
    destruct (alert e) as [a|] eqn:Ha; [|by apply elem_of_nil in Ha0].
    apply list_elem_of_bind in Ha0 as (i & _ & Hi).
    apply list_elem_of_filter in Hi as [-> Hi]. eauto.
  - intros (e & a & He & Ha & Hi) Hnil.
    assert (Hin : a ∈ alerts_naming route_id entities).
    { unfold alerts_naming. apply list_elem_of_bind. exists e. split; [|done].
      rewrite Ha. apply list_elem_of_bind. exists (Some route_id).
      split; [left|]. by apply list_elem_of_filter. }
    rewrite Hnil in Hin. by apply elem_of_nil in Hin.
Qed.

(** X3. A route is in the mapping of the classifier exactly when an alert
    entity of the feed has an informed entity with that route; alerts
    without a route-scoped informed entity leave no trace. *)
Theorem classifier_domain `{PyUnicode} (entities : FeedMessage) (route_id : string) :
  is_Some (get_route_status_from_alerts (Some entities) !! route_id) ↔
  ∃ e a, e ∈ entities ∧ alert e = Some a ∧ Some route_id ∈ informed_entity a.
Proof.
  rewrite <- alerts_naming_elem.
  pose proof (classifier_messages_of entities route_id) as Hm.
  destruct (classifier_consistent (Some entities)) as [Hc _].
  unfold messages_of in Hm.
  destruct (get_route_status_from_alerts (Some entities) !! route_id) as [e|] eqn:He;
    simpl in Hm.
  - destruct (Hc _ _ He) as [_ Hne]. split; [|by eauto].
    intros _ Hnil. rewrite Hnil in Hm. by destruct (rs_messages e).
  - split; [by intros [? ?]|]. intros Hne.
    by destruct (alerts_naming route_id entities).
Qed.

Lemma classifier_domain_witness :
  is_Some (get_route_status_from_alerts (H := ascii_text) (Some example_alerts) !! "L").
Proof.
  apply (classifier_domain example_alerts "L").
  eexists _, _. split; [right; left|]. split; [reflexivity|].
  simpl. right. right. left.
Defined.

(** ** Service status aggregator: what the response holds *)

Lemma combine_text_truthy (header description : string) :
  PyStr.truthy (combine_text header description) = true.
Proof.
  unfold combine_text.
  destruct header as [|h header], description as [|d description]; reflexivity.
Qed.

Lemma alert_message_text `{PyUnicode} (a : Alert) : msg_text (alert_message a) ≠ "".
Proof.
  unfold alert_message. simpl.
  pose proof (combine_text_truthy (first_translation (header_text a))
                (first_translation (description_text a))) as Ht.
  destruct (combine_text _ _) as [|c text]; [done|].
  cbn [PyStr.take]. by destruct (PyStr.is_continuation c).
Qed.

(** X4. Whatever the alerts feed, every entry of the service data has a
    status of the taxonomy, at least one message and a non-empty primary
    text, and each of its messages has a non-empty text: an alert without
    header and description reads "Service alert". *)
Theorem service_entries_presentable `{PyUnicode} (feed : option FeedMessage) :
  Forall (λ entry,
            known_status (sd_status entry) ∧
            sd_message entry ≠ "" ∧
            sd_messages entry ≠ [] ∧
            Forall (λ m, msg_text m ≠ "") (sd_messages entry))
         (build_service_data (get_route_status_from_alerts feed)).
Proof.
  unfold build_service_data. apply Forall_fmap, Forall_forall.
  intros [route_id info] _. simpl.
  destruct (get_route_status_from_alerts feed !! route_id) as [e|] eqn:He; simpl.
  - destruct (classifier_consistent feed) as [Hc _].
    destruct (Hc _ _ He) as [(Hk & _ & _) Hne].
    assert (Htexts : Forall (λ m, msg_text m ≠ "") (rs_messages e)).
    { destruct feed as [entities|]; [|by simpl in He].
      pose proof (classifier_messages_of entities route_id) as Hm.
      unfold messages_of in Hm. rewrite He in Hm. simpl in Hm. rewrite Hm.
      apply Forall_fmap, Forall_forall.
      intros a' _. apply alert_message_text. }
    split_and!; [done| |done|done].
    destruct (rs_messages e) as [|m ms]; [done|].
    by apply Forall_cons in Htexts as [? _].
  - split_and!; [by left|done|done|]. by repeat constructor.
Qed.

(** X5. A catalog route that no alert of the feed names, and every catalog
    route when the alerts feed could not be fetched, is reported in good
    service with the single "Good Service" message, whatever the alerts say
    about other routes. *)
Theorem unalerted_route_good `{PyUnicode} (feed : option FeedMessage) (i : nat)
    (route_id : string) (info : LineInfo) :
  all_lines !! i = Some (route_id, info) →
  (∀ entities, feed = Some entities → alerts_naming route_id entities = []) →
  build_service_data (get_route_status_from_alerts feed) !! i =
    Some {| sd_id := route_id; sd_name := line_name info; sd_type := line_type info;
            sd_status := "good"; sd_message := "Good Service";
            sd_messages := [good_service_message] |}.
Proof.
  intros Hi Hnone. unfold build_service_data. rewrite list_lookup_fmap, Hi. simpl.
  assert (Hlookup : get_route_status_from_alerts feed !! route_id = None).
  { destruct feed as [entities|]; [|done].
    pose proof (classifier_messages_of entities route_id) as Hm.
    rewrite (Hnone entities eq_refl) in Hm. unfold messages_of in Hm.
    destruct (classifier_consistent (Some entities)) as [Hc _].
    destruct (get_route_status_from_alerts (Some entities) !! route_id) as [e|] eqn:He;
      [|done].
    destruct (Hc _ _ He) as [_ Hne]. simpl in Hm. by destruct (rs_messages e). }
  by rewrite Hlookup.
Qed.

Lemma unalerted_route_good_witness :
  sd_status <$> build_service_data
                  (get_route_status_from_alerts (H := ascii_text) (Some example_alerts)) !! 8%nat
  = Some "good".
Proof.
  rewrite (unalerted_route_good (Some example_alerts) 8 "B"
             {| line_name := "B Line"; line_type := "subway" |} eq_refl).
  - reflexivity.
  - intros entities [= <-]. reflexivity.
Defined.

(** ** The status cache: what a cycle writes *)




(** ** Arrival extractor: what the response holds *)

(** A loop that appends, for each element, the images of the items it
    yields under a function of a running counter. *)
Lemma fold_left_emit {X U B} (f : nat → U → B) (g : X → list U)
    (step : list B * nat → X → list B * nat) :
  (∀ acc tick x,
     step (acc, tick) x =
     (acc ++ imap (λ k, f (tick + k)%nat) (g x), (tick + length (g x))%nat)) →
  ∀ xs acc tick,
    fold_left step xs (acc, tick) =
    (acc ++ imap (λ k, f (tick + k)%nat) (xs ≫= g), (tick + length (xs ≫= g))%nat).
Proof.
  intros Hstep. induction xs as [|x xs IH]; intros acc tick.
  - simpl. by rewrite app_nil_r, Nat.add_0_r.
  - cbn [fold_left]. rewrite Hstep, IH, bind_cons, imap_app, length_app, <- app_assoc.
    f_equal; [|lia]. do 2 f_equal. apply imap_ext. intros k u _. simpl.
    f_equal. lia.
Qed.

Lemma collect_stop_times_emit (clock : Clock) (station_id route_id : string)
    (stop_times : list StopTimeUpdate) (acc : list Arrival) (tick : nat) :
  fold_left (collect_stop_time clock station_id route_id) stop_times (acc, tick) =
  (acc ++ imap (λ k, arrival_of clock (tick + k))
            ((λ stop_time, (route_id, stop_time)) <$>
             filter (λ stop_time,
                       PyStr.startswith (stop_id stop_time) station_id = true ∧
                       is_Some (arrival stop_time)) stop_times),
   (tick + length (filter (λ stop_time,
                       PyStr.startswith (stop_id stop_time) station_id = true ∧
                       is_Some (arrival stop_time)) stop_times))%nat).
Proof.
  revert acc tick. induction stop_times as [|st sts IH]; intros acc tick.
  - simpl. by rewrite app_nil_r, Nat.add_0_r.
  - cbn [fold_left]. unfold collect_stop_time at 2.
    destruct (PyStr.startswith (stop_id st) station_id) eqn:Hp;
      [destruct (arrival st) as [t|] eqn:Ha|].
    + rewrite filter_cons_True by eauto. rewrite IH, fmap_cons, imap_cons.
      rewrite <- app_assoc. simpl. f_equal; [|lia]. f_equal.
      f_equal.
      * unfold arrival_of. simpl. by rewrite Ha, Nat.add_0_r.
      * apply imap_ext. intros k u _. simpl. f_equal. lia.
    + rewrite filter_cons_False by (intros [_ [? ?]]; congruence). apply IH.
    + rewrite filter_cons_False by (intros [? _]; congruence). apply IH.
Qed.

(** The collected arrivals are the arrivals of the station's updates, the
    [k]-th with the [k]-th reading of the clock. *)
Lemma collected_arrivals_spec (clock : Clock) (station_id : string)
    (feeds : list (option FeedMessage)) :
  collected_arrivals clock station_id feeds =
  imap (arrival_of clock) (station_updates station_id feeds).
Proof.
  unfold collected_arrivals, station_updates.
  rewrite (fold_left_emit (arrival_of clock)
             (λ feed : option FeedMessage, default [] feed ≫= λ entity,
                match trip_update entity with
                | Some trip =>
                    (λ stop_time, (trip_route_id trip, stop_time)) <$>
                    filter (λ stop_time,
                              PyStr.startswith (stop_id stop_time) station_id = true ∧
                              is_Some (arrival stop_time))
                           (stop_time_update trip)
                | None => []
                end)).
  - simpl. apply imap_ext. by intros.
  - intros acc tick [entities|]; simpl.
    + apply fold_left_emit. intros acc' tick' entity. unfold collect_entity.
      destruct (trip_update entity) as [trip|].
      * by rewrite collect_stop_times_emit, length_fmap.
      * simpl. by rewrite app_nil_r, Nat.add_0_r.
    + by rewrite app_nil_r, Nat.add_0_r.
Qed.

Lemma get_arrivals_spec (clock : Clock) (station_id : string)
    (feeds : list (option FeedMessage)) :
  ar_arrivals (get_arrivals clock station_id feeds) =
  take 10 (sort_by_key arr_minutes
             (imap (arrival_of clock) (station_updates station_id feeds))).
Proof.
  rewrite <- collected_arrivals_spec. reflexivity.
Qed.

(** X7. The response lists as many arrivals as there are stop-time updates
    of the station's stops with an arrival in the fetched feeds, up to 10;
    when no feed could be fetched it is a success with no arrivals. *)
Theorem arrivals_count (clock : Clock) (station_id : string)
    (feeds : list (option FeedMessage)) :
  length (ar_arrivals (get_arrivals clock station_id feeds)) =
    (10 `min` length (station_updates station_id feeds))%nat ∧
  (Forall (λ feed, feed = None) feeds →
   get_arrivals clock station_id feeds =
     {| ar_success := true; ar_station_id := station_id; ar_arrivals := [] |}).
Proof.
  split.
  - rewrite get_arrivals_spec, length_take.
    rewrite (Permutation_length (sort_by_key_Permutation _ _)).
    by rewrite length_imap.
  - intros Hnone.
    assert (Hu : station_updates station_id feeds = []).
    { unfold station_updates. induction Hnone as [|feed feeds -> _ IH]; [done|].
      by rewrite bind_cons, IH. }
    pose proof (get_arrivals_spec clock station_id feeds) as Hspec.
    rewrite Hu in Hspec. simpl in Hspec.
    unfold get_arrivals in *. simpl in *. by rewrite Hspec.
Qed.

Lemma arrivals_count_witness :
  get_arrivals (λ _, 700) "127" [None; None] =
  {| ar_success := true; ar_station_id := "127"; ar_arrivals := [] |}.
Proof.
  apply (proj2 (arrivals_count (λ _, 700) "127" [None; None])).
  by repeat constructor.
Defined.

Lemma station_updates_elem (station_id route_id : string) (st : StopTimeUpdate)
    (feeds : list (option FeedMessage)) :
  (route_id, st) ∈ station_updates station_id feeds →
  ∃ entities entity trip,
    Some entities ∈ feeds ∧ entity ∈ entities ∧ trip_update entity = Some trip ∧
    st ∈ stop_time_update trip ∧ route_id = trip_route_id trip ∧
    PyStr.startswith (stop_id st) station_id = true ∧ is_Some (arrival st).
Proof.
  unfold station_updates. intros Hin.
  apply list_elem_of_bind in Hin as (feed & Hin & Hfeed).
  destruct feed as [entities|]; [|by apply elem_of_nil in Hin]. simpl in Hin.
  apply list_elem_of_bind in Hin as (entity & Hin & Hentity).
  destruct (trip_update entity) as [trip|] eqn:Htrip; [|by apply elem_of_nil in Hin].
  apply list_elem_of_fmap in Hin as (st' & [= -> ->] & Hst).
  apply list_elem_of_filter in Hst as [[Hp Ha] Hst].
  exists entities, entity, trip. by split_and!.
Qed.

(** X8. Every arrival of the response comes from a stop-time update of a
    fetched feed whose stop id starts with the station id and which carries
    an arrival time: its line is the route of the update's trip, its
    direction is Uptown when the stop id ends in N and Downtown otherwise,
    and its minutes are the clamped floor of the time left at some reading
    of the clock, hence never negative. *)
Theorem arrivals_sound (clock : Clock) (station_id : string)
    (feeds : list (option FeedMessage)) (a : Arrival) :
  a ∈ ar_arrivals (get_arrivals clock station_id feeds) →
  ∃ entities entity trip st t k,
    Some entities ∈ feeds ∧ entity ∈ entities ∧ trip_update entity = Some trip ∧
    st ∈ stop_time_update trip ∧
    PyStr.startswith (stop_id st) station_id = true ∧ arrival st = Some t ∧
    arr_line a = trip_route_id trip ∧
    arr_direction a =
      (if PyStr.endswith (stop_id st) "N" then "Uptown" else "Downtown") ∧
    arr_minutes a = Z.max 0 ((t - clock k) `div` 60) ∧
    0 ≤ arr_minutes a.
Proof.
  rewrite get_arrivals_spec. intros Hin.
  apply (subseteq_take 10) in Hin.
  rewrite sort_by_key_Permutation in Hin.
  apply list_elem_of_lookup in Hin as [k Hk].
  rewrite list_lookup_imap in Hk.
  destruct (station_updates station_id feeds !! k) as [[route_id st]|] eqn:Hu;
    [|done].
  simpl in Hk. injection Hk as <-.
  apply list_elem_of_lookup_2 in Hu.
  apply station_updates_elem in Hu
    as (entities & entity & trip & He & Hent & Htrip & Hst & -> & Hp & [t Ht]).
  exists entities, entity, trip, st, t, k.
  unfold arrival_of, minutes_until. simpl. rewrite Ht. simpl.
  split_and!; try done. lia.
Qed.

Lemma arrivals_sound_witness :
  ∃ a, a ∈ ar_arrivals (get_arrivals (λ _, 700) "127" [Some example_trips]) ∧
       0 ≤ arr_minutes a.
Proof.
  exists {| arr_line := "2"; arr_direction := "Downtown"; arr_minutes := 0 |}.
  assert (Hin : {| arr_line := "2"; arr_direction := "Downtown"; arr_minutes := 0 |}
                ∈ ar_arrivals (get_arrivals (λ _, 700) "127" [Some example_trips])).
  { left. }
  split; [exact Hin|].
  destruct (arrivals_sound (λ _, 700) "127" [Some example_trips] _ Hin)
    as (? & ? & ? & ? & ? & ? & _ & _ & _ & _ & _ & _ & _ & _ & _ & Hpos).
  exact Hpos.
Defined.

(** X9. The response holds the nearest arrivals: the collected arrivals
    are the listed ones together with others that are none of them sooner;
    and arrivals of equal minutes are listed in the order in which the feeds
    gave them. *)
Theorem arrivals_nearest (clock : Clock) (station_id : string)
    (feeds : list (option FeedMessage)) :
  (∃ rest,
     collected_arrivals clock station_id feeds ≡ₚ
       ar_arrivals (get_arrivals clock station_id feeds) ++ rest ∧
     ∀ a b, a ∈ ar_arrivals (get_arrivals clock station_id feeds) → b ∈ rest →
            arr_minutes a ≤ arr_minutes b) ∧
  ∀ m, filter (λ a, arr_minutes a = m)
              (ar_arrivals (get_arrivals clock station_id feeds))
       `prefix_of`
       filter (λ a, arr_minutes a = m) (collected_arrivals clock station_id feeds).
Proof.
  unfold get_arrivals. simpl. fold (collected_arrivals clock station_id feeds).
  set (sorted := sort_by_key arr_minutes (collected_arrivals clock station_id feeds)).
  split.
  - exists (drop 10 sorted). split.
    + rewrite take_drop. subst sorted. by rewrite sort_by_key_Permutation.
    + intros a b Ha Hb.
      pose proof (sort_by_key_StronglySorted arr_minutes
                    (collected_arrivals clock station_id feeds)) as Hs.
      fold sorted in Hs. rewrite <- (take_drop 10 sorted) in Hs.
      exact (StronglySorted_app_1_elem_of _ _ _ _ _ Hs Ha Hb).
  - intros m.
    rewrite <- (sort_by_key_stable arr_minutes m
                  (collected_arrivals clock station_id feeds)).
    fold sorted. rewrite <- (take_drop 10 sorted) at 2. rewrite filter_app.
    by apply prefix_app_r.
Qed.

Lemma arrivals_nearest_witness :
  filter (λ a, arr_minutes a = 0)
         (ar_arrivals (get_arrivals (λ _, 700) "127" [Some example_trips]))
  `prefix_of`
  filter (λ a, arr_minutes a = 0)
         (collected_arrivals (λ _, 700) "127" [Some example_trips]).
Proof.
  exact (proj2 (arrivals_nearest (λ _, 700) "127" [Some example_trips]) 0).
Defined.

(** ** Static schedule loader: refresh and reuse *)

(** X10. When there is no usable fresh copy (none, a stale one, or a forced
    refresh) and the server answers with a status that is not 4xx or 5xx,
    the body is written over the cached copy and the path is returned; from
    then on, as long as less than 24 hours have passed since that write,
    every unforced call returns the path and leaves the copy alone, whatever
    the network does. *)
Theorem download_then_reuse (force : bool) (now status_code : Z)
    (content : Content) (fs : option CachedFile) :
  raises_for_status status_code = false →
  match fs with
  | Some f => force = true ∨ fresh now f = false
  | None => True
  end →
  let written := {| st_mtime := now; file_content := content |} in
  download_gtfs_static force now (HttpResponse status_code content) fs =
    (Some GTFS_ZIP_PATH, Some written) ∧
  ∀ (later : Z) (net : HttpResult),
    later - now < GTFS_CACHE_TTL →
    download_gtfs_static false later net (Some written) =
      (Some GTFS_ZIP_PATH, Some written).
Proof.
  intros Hstatus Hfs written. split.
  - unfold download_gtfs_static. rewrite Hstatus.
    destruct fs as [f|]; [|done].
    destruct Hfs as [-> | ->]; [done|]. by rewrite andb_false_r.
  - intros later net Hlater. apply fresh_cache_reused.
    unfold fresh, written. simpl. by apply Z.ltb_lt.
Qed.

Lemma download_then_reuse_witness :
  download_gtfs_static false 100000 (HttpResponse 200 (Some loop_tables))
    (Some {| st_mtime := 0; file_content := None |}) =
    (Some GTFS_ZIP_PATH,
     Some {| st_mtime := 100000; file_content := Some loop_tables |}) ∧
  download_gtfs_static false 186399 ConnectionError
    (Some {| st_mtime := 100000; file_content := Some loop_tables |}) =
    (Some GTFS_ZIP_PATH,
     Some {| st_mtime := 100000; file_content := Some loop_tables |}).
Proof.
  destruct (download_then_reuse false 100000 200 (Some loop_tables)
              (Some {| st_mtime := 0; file_content := None |}) eq_refl
              (or_intror eq_refl)) as [Hfirst Hlater].
  split; [exact Hfirst|]. apply Hlater. reflexivity.
Defined.

(** X11. A forced refresh whose download fails reports the archive as
    unavailable although a copy within the freshness window is on storage;
    the copy is left as it was. *)
Theorem forced_refresh_failure (now : Z) (net : HttpResult) (f : CachedFile) :
  fresh now f = true → download_fails net = true →
  download_gtfs_static true now net (Some f) = (None, Some f) ∧
  download_gtfs_static false now net (Some f) = (Some GTFS_ZIP_PATH, Some f).
Proof.
  intros Hfresh Hnet. split.
  - apply failed_download_unavailable; [by left | done].
  - unfold download_gtfs_static. simpl. by rewrite Hfresh.
Qed.

Lemma forced_refresh_failure_witness :
  download_gtfs_static true 1000 (HttpResponse 500 None)
    (Some {| st_mtime := 0; file_content := Some loop_tables |}) =
  (None, Some {| st_mtime := 0; file_content := Some loop_tables |}).
Proof.
  apply (forced_refresh_failure 1000 (HttpResponse 500 None)
           {| st_mtime := 0; file_content := Some loop_tables |});
    reflexivity.
Defined.

(** X12. A response that is not an error but whose body is not a readable
    archive is cached all the same: the topology is empty, and it stays
    empty for every call of the next 24 hours, none of which downloads
    again. *)
Theorem unreadable_archive_cached `{PyNumbers} (now status_code : Z)
    (fs : option CachedFile) :
  raises_for_status status_code = false →
  match fs with
  | Some f => fresh now f = false
  | None => True
  end →
  let written := {| st_mtime := now; file_content := None |} in
  parse_gtfs_static now (HttpResponse status_code None) fs =
    (([], []), Some written) ∧
  ∀ (later : Z) (net : HttpResult),
    later - now < GTFS_CACHE_TTL →
    parse_gtfs_static later net (Some written) = (([], []), Some written).
Proof.
  intros Hstatus Hfs written. subst written. split.
  - unfold parse_gtfs_static, download_gtfs_static. rewrite Hstatus.
    destruct fs as [f|]; [|done]. by rewrite Hfs.
  - intros later net Hl. unfold parse_gtfs_static.
    rewrite fresh_cache_reused; [done|].
    unfold fresh. simpl. by apply Z.ltb_lt.
Qed.

Lemma unreadable_archive_cached_witness :
  parse_gtfs_static (H := decimal_numbers) 100000 (HttpResponse 200 None) None =
    (([], []), Some {| st_mtime := 100000; file_content := None |}) ∧
  parse_gtfs_static (H := decimal_numbers) 186399
    (HttpResponse 200 (Some loop_tables))
    (Some {| st_mtime := 100000; file_content := None |}) =
    (([], []), Some {| st_mtime := 100000; file_content := None |}).
Proof.
  destruct (unreadable_archive_cached (H := decimal_numbers) 100000 200 None
              eq_refl I) as [Hfirst Hlater].
  split; [exact Hfirst|]. apply Hlater. reflexivity.
Defined.

(** ** Route topology builder: the representative trip *)

Lemma longest_first_fold (b : list string) (rest : list (list string)) :
  let best := fold_left (λ best x, if (length best <? length x)%nat then x else best)
                        rest b in
  ∃ i, (b :: rest) !! i = Some best ∧
       (∀ t, t ∈ b :: rest → (length t ≤ length best)%nat) ∧
       (∀ j t, (j < i)%nat → (b :: rest) !! j = Some t →
               (length t < length best)%nat).
Proof.
  revert b. induction rest as [|x rest IH]; intros b; cbn [fold_left].
  - exists 0%nat. split_and!; [done| |lia].
    intros t Ht. apply list_elem_of_singleton in Ht as ->. done.
  - destruct (length b <? length x)%nat eqn:Hlt.
    + apply Nat.ltb_lt in Hlt. destruct (IH x) as (i & Hi & Hmax & Hfirst).
      exists (S i). split_and!; [done| |].
      * intros t Ht. apply elem_of_cons in Ht as [->|Ht]; [|by apply Hmax].
        specialize (Hmax x (list_elem_of_here _ _)). lia.
      * intros [|j] t Hj Ht; simpl in Ht.
        -- injection Ht as <-. specialize (Hmax x (list_elem_of_here _ _)). lia.
        -- apply (Hfirst j); [lia|done].
    + apply Nat.ltb_ge in Hlt. destruct (IH b) as (i & Hi & Hmax & Hfirst).
      destruct i as [|i].
      * exists 0%nat. simpl in Hi. split_and!; [done| |lia].
        intros t Ht. apply elem_of_cons in Ht as [->|Ht]; [by apply Hmax; left|].
        apply elem_of_cons in Ht as [->|Ht]; [|by apply Hmax; right].
        injection Hi as <-. done.
      * exists (S (S i)). simpl in Hi. split_and!; [done| |].
        -- intros t Ht. apply elem_of_cons in Ht as [->|Ht]; [by apply Hmax; left|].
           apply elem_of_cons in Ht as [->|Ht]; [|by apply Hmax; right].
           specialize (Hmax b (list_elem_of_here _ _)). lia.
        -- intros [|[|j]] t Hj Ht; simpl in Ht.
           ++ apply (Hfirst 0%nat); [lia|done].
           ++ injection Ht as <-.
              specialize (Hfirst 0%nat b). simpl in Hfirst.
              specialize (Hfirst ltac:(lia) eq_refl). lia.
           ++ apply (Hfirst (S j)); [lia|done].
Qed.

(** X13. The representative trip is the first of the longest trips of the
    route: no trip of the route has more stops, and every trip listed
    before it has fewer.  [max] fails on the empty list only. *)
Theorem representative_is_first_longest (trips : list (list string)) :
  (max_by_len trips = None ↔ trips = []) ∧
  ∀ best, max_by_len trips = Some best →
    ∃ i, trips !! i = Some best ∧
         (∀ t, t ∈ trips → (length t ≤ length best)%nat) ∧
         (∀ j t, (j < i)%nat → trips !! j = Some t → (length t < length best)%nat).
Proof.
  split.
  - by destruct trips.
  - intros best Hbest. destruct trips as [|t0 rest]; [done|].
    injection Hbest as <-. apply longest_first_fold.
Qed.

Lemma representative_is_first_longest_witness :
  ∃ i, [["A"]; ["A"; "B"]; ["C"; "D"]] !! i = Some ["A"; "B"] ∧
       ∀ j t, (j < i)%nat → [["A"]; ["A"; "B"]; ["C"; "D"]] !! j = Some t →
              (length t < 2)%nat.
Proof.
  destruct (proj2 (representative_is_first_longest [["A"]; ["A"; "B"]; ["C"; "D"]])
              ["A"; "B"] eq_refl) as (i & Hi & _ & Hfirst).
  exists i. split; [exact Hi|]. exact Hfirst.
Defined.

(** ** Insertion-ordered dictionaries *)

Lemma odict_get_None {V} (k : string) (d : ODict.t V) :
  ODict.get k d = None ↔ k ∉ d.*1.
Proof.
  induction d as [|[k' v] d IH]; csimpl.
  - split; [intros _; apply not_elem_of_nil | done].
  - destruct (decide (k = k')) as [->|Hne].
    + split; [done|]. intros Hnot. exfalso. apply Hnot. left.
    + rewrite IH, not_elem_of_cons. tauto.
Qed.

Lemma odict_get_Some_elem {V} (k : string) (v : V) (d : ODict.t V) :
  ODict.get k d = Some v → (k, v) ∈ d.
Proof.
  induction d as [|[k' v'] d IH]; csimpl; [done|].
  destruct (decide (k = k')) as [->|Hne].
  - intros [= ->]. left.
  - intros Hget. right. by apply IH.
Qed.

Lemma odict_elem_get {V} (k : string) (v : V) (d : ODict.t V) :
  NoDup d.*1 → (k, v) ∈ d → ODict.get k d = Some v.
Proof.
  induction d as [|[k' v'] d IH]; csimpl; intros Hnd Hin.
  - by apply elem_of_nil in Hin.
  - apply NoDup_cons in Hnd as [Hk' Hnd].
    apply elem_of_cons in Hin as [[= -> ->]|Hin].
    + by rewrite decide_True.
    + rewrite decide_False; [by apply IH|].
      intros ->. apply Hk'. apply list_elem_of_fmap. by exists (k', v).
Qed.

(** Assigning to a key keeps the order of the keys and appends a new key. *)
Lemma odict_set_keys {V} (k : string) (v : V) (d : ODict.t V) :
  (ODict.set k v d).*1 = if decide (k ∈ d.*1) then d.*1 else d.*1 ++ [k].
Proof.
  induction d as [|[k' v'] d IH]; csimpl.
  - done.
  - destruct (decide (k = k')) as [->|Hne]; csimpl.
    + rewrite decide_True; [done|left].
    + rewrite IH. destruct (decide (k ∈ d.*1)) as [Hin|Hnot].
      * rewrite decide_True; [done|by right].
      * rewrite decide_False; [done|]. rewrite not_elem_of_cons. done.
Qed.

Lemma odict_set_NoDup {V} (k : string) (v : V) (d : ODict.t V) :
  NoDup d.*1 → NoDup (ODict.set k v d).*1.
Proof.
  intros Hnd. rewrite odict_set_keys. case_decide; [done|].
  apply NoDup_app. split_and!; [done| |apply NoDup_singleton].
  intros x Hx Hin. apply list_elem_of_singleton in Hin. by subst.
Qed.

(** ** Route topology builder: walking the representative trip *)

Lemma filter_all {A} (P : A → Prop) `{∀ x, Decision (P x)} (l : list A) :
  (∀ x, P x) → filter P l = l.
Proof.
  intros HP. induction l as [|x l IH]; [done|].
  by rewrite filter_cons_True, IH.
Qed.

Lemma nub_filter_seen (S : gset string) (x : string) (l : list string) :
  x ∈ S →
  filter (λ y, y ∉ S) (filter (λ y, y ≠ x) l) = filter (λ y, y ∉ S) l.
Proof.
  intros Hx. rewrite list_filter_filter. apply list_filter_iff.
  intros y. split; [by intros [? _]|]. intros Hy. split; [done|]. by intros ->.
Qed.

Lemma nub_filter_add (S : gset string) (x : string) (l : list string) :
  filter (λ y, y ∉ S) (filter (λ y, y ≠ x) l) = filter (λ y, y ∉ {[x]} ∪ S) l.
Proof.
  rewrite list_filter_filter. apply list_filter_iff. intros y.
  rewrite not_elem_of_union, not_elem_of_singleton. tauto.
Qed.

Lemma omap_filter_absent {B} (c : string → option B) (P : string → Prop)
    `{∀ y, Decision (P y)} (x : string) (l : list string) :
  c x = None →
  omap c (filter P (filter (λ y, y ≠ x) l)) = omap c (filter P l).
Proof.
  intros Hx. induction l as [|y l IH]; [done|].
  destruct (decide (y = x)) as [->|Hne].
  - rewrite (filter_cons_False (λ y, y ≠ x)) by (intros ?; done). rewrite IH.
    rewrite (filter_cons P). case_decide; [|done]. csimpl. by rewrite Hx.
  - rewrite (filter_cons_True (λ y, y ≠ x)) by done.
    rewrite !(filter_cons P). case_decide; [|done]. csimpl. by rewrite IH.
Qed.

Section WalkFacts.
Context `{PyNumbers}.

Lemma coords_in_visit (route_id id x : string) (w : Walk) :
  coords_in (walk_stops (visit_stop route_id w x)) id = coords_in (walk_stops w) id.
Proof.
  unfold visit_stop, coords_in.
  destruct (ODict.get x (walk_stops w)) as [s|] eqn:Hs; [|done].
  case_decide; [done|]. simpl. rewrite odict_get_set.
  case_decide; [|done]. subst. by rewrite Hs.
Qed.

(** The coordinates gathered along a trip, from any state of the walk: those
    of the first occurrences of the stops not yet seen, as far as they are
    known to the stops mapping. *)
Lemma walk_coords_fold (route_id : string)
    (c : string → option (pyfloat * pyfloat)) (l : list string) (w : Walk) :
  (∀ id, coords_in (walk_stops w) id = c id) →
  walk_coords (fold_left (visit_stop route_id) l w) =
  walk_coords w ++ omap c (filter (λ y, y ∉ walk_seen w) (nub l)).
Proof.
  revert w. induction l as [|x l IH]; intros w Hc.
  - simpl. by rewrite app_nil_r.
  - cbn [fold_left nub].
    assert (Hc1 : ∀ id, coords_in (walk_stops (visit_stop route_id w x)) id = c id).
    { intros id. by rewrite coords_in_visit. }
    rewrite (IH _ Hc1). pose proof (Hc x) as Hx. unfold coords_in in Hx.
    unfold visit_stop in *.
    destruct (ODict.get x (walk_stops w)) as [s|] eqn:Hs; simpl in Hx.
    + destruct (decide (x ∈ walk_seen w)) as [Hseen|Hnew].
      * f_equal. rewrite filter_cons_False by (intros Hn; by apply Hn).
        by rewrite nub_filter_seen.
      * simpl. rewrite filter_cons_True by done. simpl. rewrite <- Hx.
        rewrite <- app_assoc. simpl. by rewrite nub_filter_add.
    + f_equal. rewrite (filter_cons (λ y, y ∉ walk_seen w)).
      case_decide; simpl; rewrite <- ?Hx; by rewrite omap_filter_absent.
Qed.

(** X14. The coordinates of a route are those of the stops of its
    representative trip at their first occurrence, in trip order, the stops
    that are not in the stops table being left out. *)
Theorem walk_coords_first_occurrences (route_id : string) (best : list string)
    (stops : ODict.t Stop) :
  walk_coords (walk_trip route_id best stops) = omap (coords_in stops) (nub best).
Proof.
  unfold walk_trip. rewrite (walk_coords_fold route_id (coords_in stops)); [|done].
  simpl. f_equal. apply filter_all. intros y. apply not_elem_of_empty.
Qed.

End WalkFacts.

(** ** Route topology builder: the stops mapping *)

Lemma nub_NoDup (l : list string) : NoDup (nub l).
Proof.
  induction l as [|x l IH]; simpl; [constructor|].
  apply NoDup_cons. split.
  - rewrite list_elem_of_filter. by intros [Hne _].
  - by apply NoDup_filter.
Qed.

Lemma nub_elem (x : string) (l : list string) : x ∈ nub l ↔ x ∈ l.
Proof.
  induction l as [|y l IH]; simpl; [done|].
  rewrite !elem_of_cons, list_elem_of_filter, IH.
  destruct (decide (x = y)) as [->|Hne]; [by split; left|].
  split; [intros [?|[? ?]]; auto | intros [?|?]; auto].
Qed.

(** The keys of a dictionary filled by successive assignments: the keys it
    had, then the new keys in the order of their first assignment. *)
Lemma odict_fold_keys {X V} (key : X → option string) (val : string → X → V)
    (xs : list X) (d : ODict.t V) :
  (fold_left (λ d x, match key x with
                     | Some k => ODict.set k (val k x) d
                     | None => d
                     end) xs d).*1 =
  d.*1 ++ filter (λ k, k ∉ d.*1) (nub (omap key xs)).
Proof.
  revert d. induction xs as [|x xs IH]; intros d.
  - simpl. by rewrite app_nil_r.
  - cbn [fold_left]. rewrite IH. csimpl. destruct (key x) as [k|]; [|done].
    cbn [nub]. rewrite odict_set_keys. destruct (decide (k ∈ d.*1)) as [Hin|Hnot].
    + f_equal. rewrite filter_cons_False by (intros Hn; by apply Hn).
      rewrite list_filter_filter. apply list_filter_iff. intros y.
      split; [|by intros [? _]]. intros Hy. split; [done|]. by intros ->.
    + rewrite filter_cons_True by done. rewrite <- app_assoc. simpl. do 2 f_equal.
      rewrite list_filter_filter. apply list_filter_iff. intros y.
      rewrite elem_of_app, list_elem_of_singleton. tauto.
Qed.

(** The value of a key in such a dictionary: that of its last assignment. *)
Lemma odict_fold_get {X V} (key : X → option string) (val : string → X → V)
    (xs : list X) (d : ODict.t V) (k : string) :
  ODict.get k (fold_left (λ d x, match key x with
                                 | Some k => ODict.set k (val k x) d
                                 | None => d
                                 end) xs d) =
  match last (filter (λ x, key x = Some k) xs) with
  | Some x => Some (val k x)
  | None => ODict.get k d
  end.
Proof.
  induction xs as [|x xs IH] using rev_ind; [done|].
  rewrite fold_left_app, filter_app. cbn [fold_left].
  destruct (key x) as [k'|] eqn:Hk.
  - rewrite odict_get_set. destruct (decide (k = k')) as [->|Hne].
    + rewrite (filter_cons_True _ x) by done. by rewrite filter_nil, last_snoc.
    + rewrite (filter_cons_False _ x) by congruence.
      rewrite filter_nil, app_nil_r. apply IH.
  - rewrite (filter_cons_False _ x) by congruence.
    rewrite filter_nil, app_nil_r. apply IH.
Qed.

Section StopsFacts.
Context `{PyNumbers}.

Lemma map_stop_assigns (stops : ODict.t Stop) (r : Row) :
  map_stop stops r =
  match truthy_field (r !! "stop_id") with
  | Some stop_id =>
      ODict.set stop_id
        {| stop_stop_id := stop_id; stop_name := row_name stop_id r;
           stop_lat := (row_coords r).1; stop_lon := (row_coords r).2;
           stop_lines := ∅ |} stops
  | None => stops
  end.
Proof.
  unfold map_stop, row_coords, row_name.
  destruct (truthy_field (r !! "stop_id")) as [stop_id|]; [|done].
  by destruct (float_or_zero (r !! "stop_lat")), (float_or_zero (r !! "stop_lon")).
Qed.

Lemma stops_of_fold (tb : Tables) :
  stops_of tb =
  fold_left (λ d r, match truthy_field (r !! "stop_id") with
                    | Some k =>
                        ODict.set k
                          {| stop_stop_id := k; stop_name := row_name k r;
                             stop_lat := (row_coords r).1;
                             stop_lon := (row_coords r).2;
                             stop_lines := ∅ |} d
                    | None => d
                    end) (stops_txt tb) [].
Proof.
  unfold stops_of. generalize (@nil (string * Stop)).
  induction (stops_txt tb) as [|r rows IH]; intros d; [done|].
  cbn [fold_left]. by rewrite IH, map_stop_assigns.
Qed.

Lemma stops_of_keys (tb : Tables) :
  (stops_of tb).*1 = nub (omap (λ r, truthy_field (r !! "stop_id")) (stops_txt tb)).
Proof.
  rewrite stops_of_fold.
  rewrite (odict_fold_keys (λ r : Row, truthy_field (r !! "stop_id"))
             (λ k r, {| stop_stop_id := k; stop_name := row_name k r;
                        stop_lat := (row_coords r).1; stop_lon := (row_coords r).2;
                        stop_lines := ∅ |})).
  simpl. apply filter_all. intros k. apply not_elem_of_nil.
Qed.

Lemma stops_of_get (tb : Tables) (stop_id : string) :
  ODict.get stop_id (stops_of tb) =
  (λ r, {| stop_stop_id := stop_id; stop_name := row_name stop_id r;
           stop_lat := (row_coords r).1; stop_lon := (row_coords r).2;
           stop_lines := ∅ |}) <$>
  last (filter (row_of_stop stop_id) (stops_txt tb)).
Proof.
  rewrite stops_of_fold.
  rewrite (odict_fold_get (λ r : Row, truthy_field (r !! "stop_id"))
             (λ k r, {| stop_stop_id := k; stop_name := row_name k r;
                        stop_lat := (row_coords r).1; stop_lon := (row_coords r).2;
                        stop_lines := ∅ |})).
  unfold row_of_stop. by destruct (last _).
Qed.

End StopsFacts.

(** ** Route topology builder: polylines and lines of the stops *)

Lemma filter_none {A} (P : A → Prop) `{∀ x, Decision (P x)} (l : list A) :
  (∀ x, x ∈ l → ¬ P x) → filter P l = [].
Proof.
  induction l as [|x l IH]; [done|]. intros Hl.
  rewrite filter_cons_False by (apply Hl; left).
  apply IH. intros y Hy. apply Hl. by right.
Qed.

Lemma odict_last_get {V} (k : string) (d : list (string * V)) :
  NoDup d.*1 →
  last (filter (λ it, it.1 = k) d) = (λ v, (k, v)) <$> ODict.get k d.
Proof.
  induction d as [|[k' v] d IH]; [done|]. rewrite fmap_cons. intros Hnd.
  apply NoDup_cons in Hnd as [Hk' Hnd]. cbn [ODict.get fst] in *.
  destruct (decide (k' = k)) as [->|Hne].
  - rewrite filter_cons_True by done. rewrite decide_True by done.
    rewrite filter_none; [done|].
    intros [k1 v1] Hin Heq. simpl in Heq. subst k1.
    apply Hk'. apply list_elem_of_fmap. by exists (k, v1).
  - rewrite filter_cons_False by done. rewrite decide_False by congruence.
    by apply IH.
Qed.

Section PolylineFacts.
Context `{PyNumbers}.

Lemma places_set (stops : ODict.t Stop) (k : string) (s s' : Stop) :
  ODict.get k stops = Some s → stop_place s' = stop_place s →
  places (ODict.set k s' stops) = places stops.
Proof.
  unfold places. induction stops as [|[k0 s0] stops IH]; csimpl; [done|].
  intros Hget Hplace. destruct (decide (k = k0)) as [->|Hne]; csimpl.
  - injection Hget as ->. by rewrite Hplace.
  - by rewrite IH.
Qed.

Lemma coords_in_fold (route_id id : string) (l : list string) (w : Walk) :
  coords_in (walk_stops (fold_left (visit_stop route_id) l w)) id =
  coords_in (walk_stops w) id.
Proof.
  revert w. induction l as [|x l IH]; intros w; [done|].
  cbn [fold_left]. by rewrite IH, coords_in_visit.
Qed.

Lemma visit_stop_cases (route_id x : string) (w : Walk) :
  (visit_stop route_id w x = w ∧
   (ODict.get x (walk_stops w) = None ∨ x ∈ walk_seen w)) ∨
  (∃ sx, ODict.get x (walk_stops w) = Some sx ∧ (x ∉ walk_seen w) ∧
         visit_stop route_id w x =
           {| walk_coords := walk_coords w ++ [(stop_lat sx, stop_lon sx)];
              walk_seen := {[x]} ∪ walk_seen w;
              walk_stops :=
                ODict.set x
                  {| stop_stop_id := stop_stop_id sx; stop_name := stop_name sx;
                     stop_lat := stop_lat sx; stop_lon := stop_lon sx;
                     stop_lines := {[route_id]} ∪ stop_lines sx |}
                  (walk_stops w) |}).
Proof.
  unfold visit_stop. destruct (ODict.get x (walk_stops w)) as [sx|]; [|left; auto].
  case_decide; [left; auto|]. right. by exists sx.
Qed.

(** The stops after a walk: the same stops in the same order, the route
    added to the lines of the stops of the trip that had not been seen. *)
Lemma walk_stops_fold (route_id : string) (l : list string) (w : Walk) :
  places (walk_stops (fold_left (visit_stop route_id) l w)) = places (walk_stops w) ∧
  ∀ id s, ODict.get id (walk_stops w) = Some s →
    ∃ s', ODict.get id (walk_stops (fold_left (visit_stop route_id) l w)) = Some s' ∧
          ∀ r, r ∈ stop_lines s' ↔
               r ∈ stop_lines s ∨ (r = route_id ∧ id ∈ l ∧ id ∉ walk_seen w).
Proof.
  revert w. induction l as [|x l IH]; intros w.
  - split; [done|]. intros id s Hs. exists s. split; [done|].
    intros r. split; [by left|]. intros [?|(_ & Hin & _)]; [done|].
    by apply elem_of_nil in Hin.
  - cbn [fold_left]. destruct (IH (visit_stop route_id w x)) as [Hplaces Hlines].
    destruct (visit_stop_cases route_id x w)
      as [[Hw Hskip] | (sx & Hx & Hnew & Hw)]; rewrite Hw in *; clear Hw.
    + split; [done|]. intros id s Hs.
      destruct (Hlines id s Hs) as (s' & Hs' & Hr). exists s'. split; [done|].
      intros r. rewrite Hr, elem_of_cons.
      split; [intros [?|(? & ? & ?)]; auto|].
      intros [?|(? & [->|?] & ?)]; auto.
      destruct Hskip; [congruence|done].
    + simpl in *. split.
      { rewrite Hplaces. by apply (places_set _ _ sx). }
      intros id s Hs.
      destruct (decide (id = x)) as [->|Hne].
      * rewrite Hx in Hs. injection Hs as <-.
        destruct (Hlines x {| stop_stop_id := stop_stop_id sx;
                              stop_name := stop_name sx;
                              stop_lat := stop_lat sx; stop_lon := stop_lon sx;
                              stop_lines := {[route_id]} ∪ stop_lines sx |})
          as (s' & Hs' & Hr).
        { rewrite odict_get_set. by rewrite decide_True. }
        exists s'. split; [done|]. intros r. rewrite Hr. simpl.
        rewrite elem_of_union, elem_of_singleton, not_elem_of_union,
          not_elem_of_singleton, elem_of_cons.
        naive_solver.
      * destruct (Hlines id s) as (s' & Hs' & Hr).
        { rewrite odict_get_set. by rewrite decide_False. }
        exists s'. split; [done|]. intros r. rewrite Hr.
        rewrite not_elem_of_union, not_elem_of_singleton, elem_of_cons.
        naive_solver.
Qed.

End PolylineFacts.

Lemma odict_set_Forall {V} (Q : V → Prop) (k : string) (v : V) (d : ODict.t V) :
  Q v → Forall (λ it, Q it.2) d → Forall (λ it, Q it.2) (ODict.set k v d).
Proof.
  intros Hv. induction 1 as [|[k' v'] d Hd Hall IH]; simpl.
  - by repeat constructor.
  - case_decide; constructor; done.
Qed.

(** The trips of the routes: every route once, none without a trip. *)
Lemma group_trips_invariant (trip_to_route : gmap string string)
    (items : list (string * list (Z * string)))
    (route_trips : ODict.t (list (list string))) :
  NoDup route_trips.*1 → Forall (λ it, it.2 ≠ []) route_trips →
  NoDup (fold_left (group_trip trip_to_route) items route_trips).*1 ∧
  Forall (λ it, it.2 ≠ []) (fold_left (group_trip trip_to_route) items route_trips).
Proof.
  revert route_trips. induction items as [|[trip_id seqs] items IH];
    intros rts Hnd Hne; [done|].
  cbn [fold_left]. apply IH; unfold group_trip;
    destruct (truthy_field (trip_to_route !! trip_id)) as [route_id|]; try done.
  - by apply odict_set_NoDup.
  - apply (odict_set_Forall (λ v, v ≠ [])); [|done].
    by destruct (default [] (ODict.get route_id rts)).
Qed.

Lemma try_each_None {A S} (body : A → S → option S) (B : A → Prop)
    (l : list A) (s : S) :
  (∀ x s, body x s = None ↔ B x) →
  try_each body l s = None ↔ Exists B l.
Proof.
  intros Hbody. revert s. induction l as [|x l IH]; intros s; simpl.
  - split; [done|]. by intros ?%Exists_nil.
  - rewrite Exists_cons. destruct (body x s) as [s'|] eqn:Hx; simpl.
    + rewrite IH. split; [by right|]. intros [Hb|?]; [|done].
      apply Hbody with (s := s) in Hb. congruence.
    + split; [|done]. intros _. left. by apply (Hbody x s).
Qed.

Section BuildFacts.
Context `{PyNumbers}.

Lemma collect_stop_seq_None (r : Row) (d : ODict.t (list (Z * string))) :
  collect_stop_seq r d = None ↔ bad_sequence r.
Proof.
  unfold collect_stop_seq, bad_sequence.
  destruct (truthy_field (r !! "stop_sequence")) as [s|]; simpl.
  - destruct (int_of_str s) as [n|] eqn:Hs; simpl.
    + split.
      * by destruct (truthy_field (r !! "trip_id")), (truthy_field (r !! "stop_id")).
      * intros (s' & [= <-] & Hs'). congruence.
    + split; [|done]. intros _. by exists s.
  - split.
    + by destruct (truthy_field (r !! "trip_id")), (truthy_field (r !! "stop_id")).
    + by intros (s' & ? & _).
Qed.

Lemma route_trips_of_None (tb : Tables) :
  route_trips_of tb = None ↔ Exists bad_sequence (stop_times_txt tb).
Proof.
  unfold route_trips_of.
  rewrite <- (try_each_None collect_stop_seq bad_sequence (stop_times_txt tb) []
                collect_stop_seq_None).
  by destruct (try_each collect_stop_seq (stop_times_txt tb) []).
Qed.

Lemma route_trips_of_invariant (tb : Tables) (rts : ODict.t (list (list string))) :
  route_trips_of tb = Some rts → NoDup rts.*1 ∧ Forall (λ it, it.2 ≠ []) rts.
Proof.
  unfold route_trips_of.
  destruct (try_each collect_stop_seq (stop_times_txt tb) []) as [seqs|]; [|done].
  simpl. intros [= <-]. apply group_trips_invariant; constructor.
Qed.

Lemma build_topology_unfold (tb : Tables) :
  build_topology tb =
  rts ← route_trips_of tb;
  st ← try_each build_polyline rts ([], stops_of tb);
  Some (st.1, stop_entry <$> ODict.values st.2).
Proof.
  unfold build_topology, route_trips_of, stops_of.
  destruct (try_each collect_stop_seq (stop_times_txt tb) []) as [seqs|]; [|done].
  simpl. by destruct (try_each build_polyline _ _) as [[pls stops]|].
Qed.

Lemma build_polyline_step (route_id : string) (trips : list (list string))
    (pls : ODict.t Polyline) (stops : ODict.t Stop) :
  build_polyline (route_id, trips) (pls, stops) =
  match max_by_len trips with
  | Some best =>
      Some (ODict.set route_id
              {| pl_id := route_id; pl_name := route_id;
                 pl_coordinates := walk_coords (walk_trip route_id best stops) |} pls,
            walk_stops (walk_trip route_id best stops))
  | None => None
  end.
Proof. unfold build_polyline. by destruct (max_by_len trips). Qed.

(** What the loop over the routes leaves: the stops in place, the lines of
    each stop extended by the routes whose representative trip has the stop,
    and for each route the polyline of its representative trip. *)
Lemma build_polylines_fold (rts : list (string * list (list string)))
    (pls : ODict.t Polyline) (stops : ODict.t Stop)
    (pls' : ODict.t Polyline) (stops' : ODict.t Stop) :
  try_each build_polyline rts (pls, stops) = Some (pls', stops') →
  places stops' = places stops ∧
  (∀ id s, ODict.get id stops = Some s →
     ∃ s', ODict.get id stops' = Some s' ∧
           ∀ r, r ∈ stop_lines s' ↔
                r ∈ stop_lines s ∨
                ∃ trips best, (r, trips) ∈ rts ∧ max_by_len trips = Some best ∧
                              id ∈ best) ∧
  (NoDup pls.*1 → NoDup pls'.*1) ∧
  (∀ r, ODict.get r pls' =
        match last (filter (λ it, it.1 = r) rts) with
        | Some it => polyline_of stops r <$> max_by_len it.2
        | None => ODict.get r pls
        end).
Proof.
  revert pls stops. induction rts as [|[r0 trips] rts IH]; intros pls stops.
  - simpl. intros [= <- <-]. split_and!; [done| |done|done].
    intros id s Hs. exists s. split; [done|]. intros r. split; [by left|].
    intros [?|(? & ? & Hin & _)]; [done|]. by apply elem_of_nil in Hin.
  - cbn [try_each]. rewrite build_polyline_step.
    destruct (max_by_len trips) as [best|] eqn:Hbest; [|done].
    cbn [mbind option_bind]. intros Hrest.
    destruct (IH _ _ Hrest) as (Hplaces & Hlines & Hnodup & Hget).
    destruct (walk_stops_fold r0 best
                {| walk_coords := []; walk_seen := ∅; walk_stops := stops |})
      as [Hwplaces Hwlines].
    fold (walk_trip r0 best stops) in Hwplaces, Hwlines. simpl in Hwplaces, Hwlines.
    assert (Hcoords : ∀ id, coords_in (walk_stops (walk_trip r0 best stops)) id
                            = coords_in stops id).
    { intros id. apply coords_in_fold. }
    split_and!.
    + by rewrite Hplaces.
    + intros id s Hs. destruct (Hwlines id s Hs) as (s1 & Hs1 & Hr1).
      destruct (Hlines id s1 Hs1) as (s' & Hs' & Hr'). exists s'. split; [done|].
      intros r. rewrite Hr', Hr1. split.
      * intros [[?|(-> & Hin & _)]|(trips' & best' & Hin & Hb & Hid)]; auto.
        -- right. exists trips, best. split_and!; [left|done|done].
        -- right. exists trips', best'. split_and!; [by right|done|done].
      * intros [?|(trips' & best' & Hin & Hb & Hid)]; auto.
        apply elem_of_cons in Hin as [[= -> ->]|Hin].
        -- left. right. rewrite Hbest in Hb. injection Hb as <-.
           split_and!; [done|done|apply not_elem_of_empty].
        -- right. by exists trips', best'.
    + intros Hnd. apply Hnodup. by apply odict_set_NoDup.
    + intros r. rewrite Hget.
      assert (Hpoly : ∀ b, polyline_of (walk_stops (walk_trip r0 best stops)) r b
                           = polyline_of stops r b).
      { intros b. unfold polyline_of. f_equal. apply list_omap_ext.
        apply Forall2_same_length_lookup. split; [done|].
        intros i x y Hx Hy. rewrite Hx in Hy. injection Hy as <-. apply Hcoords. }
      rewrite (filter_cons _ (r0, trips)). simpl.
      destruct (decide (r0 = r)) as [->|Hne].
      * rewrite last_cons.
        destruct (last (filter _ rts)) as [it|].
        -- destruct (max_by_len it.2); simpl; by rewrite ?Hpoly.
        -- simpl. rewrite Hbest. simpl. rewrite odict_get_set, decide_True by done.
           unfold polyline_of. do 2 f_equal.
           unfold walk_trip.
           rewrite (walk_coords_fold r (coords_in stops)); [|done].
           simpl. f_equal. apply filter_all. intros y. apply not_elem_of_empty.
      * destruct (last (filter _ rts)) as [it|].
        -- destruct (max_by_len it.2); simpl; by rewrite ?Hpoly.
        -- rewrite odict_get_set. by rewrite decide_False.
Qed.

End BuildFacts.

(** ** Sorting with a total order *)

Section StableSortOrder.
Context {A : Type} (leb : A → A → bool).
Hypothesis leb_total : ∀ x y, leb x y = true ∨ leb y x = true.
Hypothesis leb_trans : ∀ x y z, leb x y = true → leb y z = true → leb x z = true.

Lemma insert_sorted_perm (x : A) (l : list A) : insert_sorted leb x l ≡ₚ x :: l.
Proof.
  induction l as [|y l IH]; simpl; [done|].
  destruct (leb x y); [done|]. rewrite IH. apply perm_swap.
Qed.

Lemma stable_sort_perm (l : list A) : stable_sort leb l ≡ₚ l.
Proof.
  unfold stable_sort. induction l as [|x l IH]; simpl; [done|].
  by rewrite insert_sorted_perm, IH.
Qed.

Lemma insert_sorted_sorted (x : A) (l : list A) :
  StronglySorted (λ a b, leb a b = true) l →
  StronglySorted (λ a b, leb a b = true) (insert_sorted leb x l).
Proof.
  induction 1 as [|y l Hl IH Hy]; simpl.
  - repeat constructor.
  - destruct (leb x y) eqn:Hxy.
    + constructor; [by constructor|]. constructor; [done|].
      eapply Forall_impl; [exact Hy|]. simpl. intros z Hz. by eapply leb_trans.
    + constructor; [done|]. rewrite insert_sorted_perm. constructor; [|done].
      destruct (leb_total x y); congruence.
Qed.

Lemma stable_sort_sorted (l : list A) :
  StronglySorted (λ a b, leb a b = true) (stable_sort leb l).
Proof.
  unfold stable_sort. induction l as [|x l IH]; simpl.
  - constructor.
  - by apply insert_sorted_sorted.
Qed.

End StableSortOrder.

Lemma string_leb_trans (x y z : string) :
  String.leb x y = true → String.leb y z = true → String.leb x z = true.
Proof.
  intros Hxy Hyz. apply Is_true_true. apply Is_true_true in Hxy, Hyz.
  change (String.le x z). by etrans.
Qed.

Lemma odict_get_image {V B} (f : V → B) (d d' : ODict.t V) (k : string) :
  (λ kv, (kv.1, f kv.2)) <$> d' = (λ kv, (kv.1, f kv.2)) <$> d →
  f <$> ODict.get k d' = f <$> ODict.get k d.
Proof.
  revert d'. induction d as [|[k0 s0] d IH]; intros [|[k1 s1] d'];
    csimpl; try done.
  intros [= -> Hplace Hrest]. case_decide; [simpl; by rewrite Hplace|].
  by apply IH.
Qed.

Section TopologyResults.
Context `{PyNumbers}.

Lemma places_get (d d' : ODict.t Stop) (k : string) :
  places d' = places d →
  stop_place <$> ODict.get k d' = stop_place <$> ODict.get k d.
Proof. apply odict_get_image. Qed.

Lemma places_keys (d d' : ODict.t Stop) : places d' = places d → d'.*1 = d.*1.
Proof.
  unfold places. intros Heq.
  assert (Hfst : ∀ l : ODict.t Stop, l.*1 = ((λ kv, (kv.1, stop_place kv.2)) <$> l).*1).
  { intros l. rewrite <- list_fmap_compose. by apply list_fmap_ext. }
  by rewrite (Hfst d'), Heq, <- Hfst.
Qed.

Lemma stops_of_NoDup (tb : Tables) : NoDup (stops_of tb).*1.
Proof. rewrite stops_of_keys. apply nub_NoDup. Qed.

Lemma try_each_build_polyline_Some (rts : list (string * list (list string)))
    (st : ODict.t Polyline * ODict.t Stop) :
  Forall (λ it, it.2 ≠ []) rts → is_Some (try_each build_polyline rts st).
Proof.
  intros Hne. revert st. induction Hne as [|[r trips] rts Hr _ IH]; intros [pls stops].
  - by eexists.
  - cbn [try_each]. rewrite build_polyline_step.
    destruct trips as [|t0 rest]; [done|]. simpl. apply IH.
Qed.

(** The result of [build_topology], taken apart. *)
Lemma build_topology_Some (tb : Tables) (pls : ODict.t Polyline)
    (sl : list StopEntry) :
  build_topology tb = Some (pls, sl) →
  ∃ rts stops',
    route_trips_of tb = Some rts ∧
    try_each build_polyline rts ([], stops_of tb) = Some (pls, stops') ∧
    sl = stop_entry <$> ODict.values stops'.
Proof.
  rewrite build_topology_unfold.
  destruct (route_trips_of tb) as [rts|]; [|done]. simpl.
  destruct (try_each build_polyline rts _) as [[pls0 stops0]|] eqn:Htry; [|done].
  simpl. intros [= <- <-]. by exists rts, stops0.
Qed.

(** X15. When the topology is built, each route with a trip in the stop
    times has exactly one polyline, named after the route, whose
    coordinates are those of the stops of its representative trip at their
    first occurrence, as the stops table gives them; the other routes have
    none. *)
Theorem polylines_of_routes (tb : Tables) (pls : ODict.t Polyline)
    (sl : list StopEntry) :
  build_topology tb = Some (pls, sl) →
  NoDup pls.*1 ∧
  ∀ route_id,
    ODict.get route_id pls =
    polyline_of (stops_of tb) route_id <$> representative tb route_id.
Proof.
  intros Hb. apply build_topology_Some in Hb as (rts & stops' & Hrts & Htry & _).
  destruct (build_polylines_fold _ _ _ _ _ Htry) as (_ & _ & Hnd & Hget).
  destruct (route_trips_of_invariant _ _ Hrts) as [Hkeys _].
  split; [apply Hnd; constructor|].
  intros r. rewrite Hget. unfold representative. rewrite Hrts. simpl.
  rewrite (odict_last_get r rts Hkeys).
  by destruct (ODict.get r rts).
Qed.

End TopologyResults.

Example loop_topology :
  build_topology (H := decimal_numbers) loop_tables =
  Some (loop_polylines, loop_stop_entries).
Proof. reflexivity. Qed.

Lemma polylines_of_routes_witness :
  build_topology (H := decimal_numbers) loop_tables =
    Some (loop_polylines, loop_stop_entries) ∧
  NoDup loop_polylines.*1.
Proof.
  split; [exact loop_topology|].
  exact (proj1 (polylines_of_routes (H := decimal_numbers) loop_tables
                  loop_polylines loop_stop_entries loop_topology)).
Defined.

Section TopologyStops.
Context `{PyNumbers}.

Lemma stops_of_entries (tb : Tables) (k : string) (s : Stop) :
  (k, s) ∈ stops_of tb →
  ∃ r, last (filter (row_of_stop k) (stops_txt tb)) = Some r ∧
       s = {| stop_stop_id := k; stop_name := row_name k r;
              stop_lat := (row_coords r).1; stop_lon := (row_coords r).2;
              stop_lines := ∅ |}.
Proof.
  intros Hin. apply (odict_elem_get _ _ _ (stops_of_NoDup tb)) in Hin.
  rewrite stops_of_get in Hin.
  destruct (last (filter (row_of_stop k) (stops_txt tb))) as [r|]; [|done].
  simpl in Hin. injection Hin as <-. by exists r.
Qed.

(** A stop of the final mapping, traced back to the stops table. *)
Lemma final_stop_origin (tb : Tables) (stops' : ODict.t Stop) (k : string)
    (s' : Stop) :
  places stops' = places (stops_of tb) → (k, s') ∈ stops' →
  ODict.get k stops' = Some s' ∧
  ∃ r, last (filter (row_of_stop k) (stops_txt tb)) = Some r ∧
       stop_place s' = (k, row_name k r, (row_coords r).1, (row_coords r).2).
Proof.
  intros Hplaces Hin.
  assert (Hget : ODict.get k stops' = Some s').
  { apply odict_elem_get; [|done]. rewrite (places_keys _ _ Hplaces).
    apply stops_of_NoDup. }
  split; [done|].
  pose proof (places_get _ _ k Hplaces) as Hk. rewrite Hget in Hk. simpl in Hk.
  destruct (ODict.get k (stops_of tb)) as [s|] eqn:Hs; [|done].
  assert (Hk' : stop_place s' = stop_place s)
    by (cbn [fmap option_fmap option_map] in Hk; congruence).
  apply odict_get_Some_elem in Hs.
  destruct (stops_of_entries tb k s Hs) as (r & Hlast & ->).
  exists r. by rewrite Hk'.
Qed.

(** X16. When the topology is built, the stops list has one entry for each
    stop id of the stops table, in the order in which the ids first appear
    there, and every entry carries the name and the coordinates of the last
    row of its id: a repeated id keeps its first place and takes its last
    values. *)
Theorem stops_list_of_table (tb : Tables) (pls : ODict.t Polyline)
    (sl : list StopEntry) :
  build_topology tb = Some (pls, sl) →
  se_id <$> sl = nub (omap (λ r, truthy_field (r !! "stop_id")) (stops_txt tb)) ∧
  ∀ se, se ∈ sl →
    ∃ r, last (filter (row_of_stop (se_id se)) (stops_txt tb)) = Some r ∧
         se_name se = row_name (se_id se) r ∧
         (se_lat se, se_lon se) = row_coords r.
Proof.
  intros Hb. apply build_topology_Some in Hb as (rts & stops' & Hrts & Htry & ->).
  destruct (build_polylines_fold _ _ _ _ _ Htry) as (Hplaces & _ & _ & _).
  split.
  - rewrite <- stops_of_keys, <- (places_keys _ _ Hplaces).
    unfold ODict.values. rewrite <- !list_fmap_compose.
    apply list_fmap_ext. intros i [k s'] Hi. simpl.
    apply list_elem_of_lookup_2 in Hi.
    destruct (final_stop_origin tb stops' k s' Hplaces Hi) as (_ & r & _ & Hplace).
    by injection Hplace.
  - intros se Hse. apply list_elem_of_fmap in Hse as (s' & -> & Hs').
    unfold ODict.values in Hs'. apply list_elem_of_fmap in Hs' as ([k s''] & -> & Hin).
    destruct (final_stop_origin tb stops' k s'' Hplaces Hin) as (_ & r & Hlast & Hplace).
    simpl. injection Hplace as Hid Hname Hlat Hlon. rewrite Hid.
    exists r. split_and!; [done|done|].
    rewrite Hlat, Hlon. by destruct (row_coords r).
Qed.

(** X17. When the topology is built, the lines of a stop entry are the
    routes whose representative trip passes through the stop, each once and
    in ascending order; a route that serves the stop only on other trips is
    not among them. *)
Theorem stop_lines_of_routes (tb : Tables) (pls : ODict.t Polyline)
    (sl : list StopEntry) (se : StopEntry) :
  build_topology tb = Some (pls, sl) → se ∈ sl →
  StronglySorted (λ a b, String.leb a b = true) (se_lines se) ∧
  NoDup (se_lines se) ∧
  ∀ route_id, route_id ∈ se_lines se ↔
              ∃ best, representative tb route_id = Some best ∧ se_id se ∈ best.
Proof.
  intros Hb Hse. apply build_topology_Some in Hb as (rts & stops' & Hrts & Htry & ->).
  destruct (build_polylines_fold _ _ _ _ _ Htry) as (Hplaces & Hlines & _ & _).
  destruct (route_trips_of_invariant _ _ Hrts) as [Hkeys _].
  apply list_elem_of_fmap in Hse as (s' & -> & Hs').
  unfold ODict.values in Hs'. apply list_elem_of_fmap in Hs' as ([k s''] & -> & Hin).
  cbn [snd]. unfold stop_entry. cbn [se_lines se_id].
  split; [apply stable_sort_sorted;
          [apply String.leb_total | apply string_leb_trans]|].
  split; [rewrite stable_sort_perm; apply NoDup_elements|].
  intros r. rewrite stable_sort_perm, elem_of_elements.
  destruct (final_stop_origin tb stops' k s'' Hplaces Hin) as (Hget & row & _ & Hplace).
  injection Hplace as Hid _ _ _. rewrite Hid.
  pose proof (places_get _ _ k Hplaces) as Hk. rewrite Hget in Hk. simpl in Hk.
  destruct (ODict.get k (stops_of tb)) as [s|] eqn:Hs; [|done].
  destruct (Hlines k s Hs) as (s1 & Hs1 & Hr). rewrite Hget in Hs1.
  injection Hs1 as <-. rewrite Hr.
  apply odict_get_Some_elem in Hs as Hs_in.
  destruct (stops_of_entries tb k s Hs_in) as (row' & _ & ->). simpl.
  unfold representative. rewrite Hrts. simpl. split.
  - intros [Hempty|(trips & best & Hrin & Hbest & Hkin)];
      [by apply not_elem_of_empty in Hempty|].
    exists best. rewrite (odict_elem_get _ _ _ Hkeys Hrin). by simpl.
  - intros (best & Hrep & Hkin). right.
    destruct (ODict.get r rts) as [trips|] eqn:Htrips; [|done]. simpl in Hrep.
    exists trips, best. split_and!; [by apply odict_get_Some_elem|done|done].
Qed.

(** X18. The topology fails to build exactly when a row of the stop times
    has a sequence number that [int] rejects, also a row that would have
    been skipped for lack of a trip or stop id; the builder then answers
    with no routes and no stops at all, never with a part of them. *)
Theorem topology_fails_on_bad_sequence (tb : Tables) :
  (build_topology tb = None ↔ Exists bad_sequence (stop_times_txt tb)) ∧
  ∀ (now : Z) (net : HttpResult) (f : CachedFile),
    fresh now f = true → file_content f = Some tb →
    Exists bad_sequence (stop_times_txt tb) →
    parse_gtfs_static now net (Some f) = (([], []), Some f).
Proof.
  assert (Hiff : build_topology tb = None ↔ Exists bad_sequence (stop_times_txt tb)).
  { rewrite <- route_trips_of_None, build_topology_unfold.
    destruct (route_trips_of tb) as [rts|] eqn:Hrts; [|done]. simpl.
    destruct (route_trips_of_invariant _ _ Hrts) as [_ Hne].
    destruct (try_each_build_polyline_Some rts ([], stops_of tb) Hne) as [st ->].
    done. }
  split; [done|].
  intros now net f Hfresh Hcontent Hbad. unfold parse_gtfs_static.
  rewrite (fresh_cache_reused now net f Hfresh).
  destruct f as [mtime content]. simpl in Hcontent. subst content.
  apply Hiff in Hbad. by rewrite Hbad.
Qed.

End TopologyStops.

Lemma stops_list_of_table_witness :
  se_id <$> loop_stop_entries =
  nub (omap (λ r : Row, truthy_field (r !! "stop_id")) (stops_txt loop_tables)).
Proof.
  exact (proj1 (stops_list_of_table (H := decimal_numbers) loop_tables
                  loop_polylines loop_stop_entries loop_topology)).
Defined.

Lemma stop_lines_of_routes_witness :
  NoDup (se_lines (@Build_StopEntry decimal_numbers "B" "Beta" 2 6 ["R"])).
Proof.
  destruct (stop_lines_of_routes (H := decimal_numbers) loop_tables
              loop_polylines loop_stop_entries
              (@Build_StopEntry decimal_numbers "B" "Beta" 2 6 ["R"])
              loop_topology) as (_ & Hnd & _).
  - right. left.
  - exact Hnd.
Defined.

Lemma topology_fails_on_bad_sequence_witness :
  Exists (bad_sequence (H := decimal_numbers)) (stop_times_txt bad_tables) ∧
  build_topology (H := decimal_numbers) bad_tables = None.
Proof.
  assert (Hbad : Exists (bad_sequence (H := decimal_numbers))
                        (stop_times_txt bad_tables)).
  { apply Exists_exists.
    exists (row [("stop_id", "A"); ("stop_sequence", "x")]). split.
    - rewrite list_elem_of_In. simpl. auto 10.
    - exists "x". split; reflexivity. }
  split; [exact Hbad|].
  exact (proj2 (proj1 (topology_fails_on_bad_sequence (H := decimal_numbers)
                         bad_tables)) Hbad).
Defined.

(** ** The account store *)

Lemma next_id_above (seq : Z) (ids : list Z) :
  seq < next_id seq ids ∧ Forall (λ i, i < next_id seq ids) ids.
Proof.
  unfold next_id. induction ids as [|i ids [IH1 IH2]]; simpl.
  - split; [lia|constructor].
  - split; [lia|]. constructor; [lia|].
    eapply Forall_impl; [exact IH2|]. simpl. intros; lia.
Qed.

Lemma next_id_fresh {A} (f : A → Z) (seq : Z) (l : list A) :
  next_id seq (f <$> l) ∉ f <$> l.
Proof.
  intros Hin. destruct (next_id_above seq (f <$> l)) as [_ Hall].
  rewrite Forall_forall in Hall. specialize (Hall _ Hin). lia.
Qed.

Lemma NoDup_snoc {A} (l : list A) (x : A) : NoDup l → x ∉ l → NoDup (l ++ [x]).
Proof.
  intros Hl Hx. apply NoDup_app. split_and!; [done| |apply NoDup_singleton].
  intros y Hy Hin. apply list_elem_of_singleton in Hin. by subst.
Qed.

Lemma NoDup_fmap_filter {A B} (f : A → B) (P : A → Prop) `{∀ x, Decision (P x)}
    (l : list A) :
  NoDup (f <$> l) → NoDup (f <$> filter P l).
Proof.
  induction l as [|x l IH]; [done|]. rewrite fmap_cons, NoDup_cons.
  intros [Hx Hl]. rewrite filter_cons. case_decide; [|by apply IH].
  rewrite fmap_cons, NoDup_cons. split; [|by apply IH].
  intros Hin. apply Hx. apply list_elem_of_fmap in Hin as (y & -> & Hy).
  apply list_elem_of_filter in Hy as [_ Hy]. by apply list_elem_of_fmap_2.
Qed.

Lemma Forall_filter_keep {A} (Q P : A → Prop) `{∀ x, Decision (P x)} (l : list A) :
  Forall Q l → Forall Q (filter P l).
Proof.
  rewrite !Forall_forall. intros Hl x Hx.
  apply list_elem_of_filter in Hx as [_ Hx]. by apply Hl.
Qed.

Lemma find_user_Some (firebase_uid : string) (db : Database) (u : UserRow) :
  find_user firebase_uid db = Some u →
  u ∈ users db ∧ ur_firebase_uid u = firebase_uid.
Proof.
  unfold find_user. intros Hhead.
  assert (Hin : u ∈ filter (λ u, ur_firebase_uid u = firebase_uid) (users db)).
  { destruct (filter _ (users db)) as [|u0 l]; [done|].
    injection Hhead as ->. left. }
  apply list_elem_of_filter in Hin as [? ?]. done.
Qed.

Lemma find_user_None (firebase_uid : string) (db : Database) :
  find_user firebase_uid db = None ↔ firebase_uid ∉ ur_firebase_uid <$> users db.
Proof.
  unfold find_user. split.
  - intros Hhead Hin. apply list_elem_of_fmap in Hin as (u & -> & Hu).
    assert (Hf : u ∈ filter (λ u', ur_firebase_uid u' = ur_firebase_uid u) (users db))
      by (by apply list_elem_of_filter).
    destruct (filter _ (users db)); [by apply elem_of_nil in Hf | done].
  - intros Hnot. rewrite filter_none; [done|].
    intros u Hu Heq. apply Hnot. rewrite <- Heq. by apply list_elem_of_fmap_2.
Qed.

Lemma Forall_le_trans {A} (f : A → Z) (a b : Z) (l : list A) :
  a ≤ b → Forall (λ x, f x ≤ a) l → Forall (λ x, f x ≤ b) l.
Proof.
  intros Hab Hl. eapply Forall_impl; [exact Hl|]. simpl. intros; lia.
Qed.

Lemma Forall_elem_snoc {A B} (f : A → Z) (g : B → Z) (l : list A) (us : list B)
    (u : B) :
  Forall (λ x, f x ∈ g <$> us) l → Forall (λ x, f x ∈ g <$> us ++ [u]) l.
Proof.
  intros Hl. eapply Forall_impl; [exact Hl|]. simpl.
  intros x Hx. rewrite fmap_app, elem_of_app. by left.
Qed.

Lemma set_write_locked_consistent (locked : bool) (db : Database) :
  db_consistent db → db_consistent (set_write_locked locked db).
Proof. intros []. by split. Qed.

Lemma create_user_consistent (now : Z) (data : option (gmap string string))
    (db : Database) :
  db_consistent db → db_consistent (create_user now data db).2.
Proof.
  intros Hc. unfold create_user. destruct data as [data|]; [|done].
  destruct (truthy_field (data !! "firebase_uid")) as [uid|]; [|done].
  destruct (truthy_field (data !! "email")) as [email|]; [|done].
  destruct (write_locked db); [done|].
  case_decide as Huid; [by apply set_write_locked_consistent|].
  destruct Hc. simpl.
  destruct (next_id_above (users_seq db) (ur_id <$> users db)) as [Hseq Hids].
  split; simpl; try done.
  - rewrite fmap_app. by apply NoDup_snoc.
  - rewrite fmap_app. apply NoDup_snoc; [done|]. apply next_id_fresh.
  - apply Forall_app. split; [|by repeat constructor].
    apply (Forall_le_trans _ (users_seq db)); [lia|done].
  - by apply Forall_elem_snoc.
  - by apply Forall_elem_snoc.
Qed.

Lemma add_favorite_consistent (now : Z) (data : option (gmap string string))
    (db : Database) :
  db_consistent db → db_consistent (add_favorite now data db).2.
Proof.
  intros Hc. unfold add_favorite. destruct data as [data|]; [|done].
  destruct (truthy_field (data !! "firebase_uid")) as [uid|]; [|done].
  destruct (truthy_field (data !! "route_id")) as [route_id|]; [|done].
  destruct (truthy_field (data !! "route_type")) as [route_type|]; [|done].
  destruct (find_user uid db) as [user|] eqn:Huser; [|done].
  destruct (write_locked db); [done|].
  case_decide as Hpair; [by apply set_write_locked_consistent|].
  destruct Hc. simpl.
  destruct (next_id_above (favorites_seq db) (fv_id <$> favorites db)) as [Hseq Hids].
  apply find_user_Some in Huser as [Huser _].
  split; simpl; try done.
  - rewrite fmap_app. apply NoDup_snoc; [done|]. apply next_id_fresh.
  - rewrite fmap_app. by apply NoDup_snoc.
  - apply Forall_app. split; [|by repeat constructor].
    apply (Forall_le_trans _ (favorites_seq db)); [lia|done].
  - apply Forall_app. split; [done|]. repeat constructor. simpl.
    by apply list_elem_of_fmap_2.
Qed.

Lemma create_alert_consistent (now : Z) (data : option (gmap string string))
    (db : Database) :
  db_consistent db → db_consistent (create_alert now data db).2.
Proof.
  intros Hc. unfold create_alert. destruct data as [data|]; [|done].
  destruct (truthy_field (data !! "firebase_uid")) as [uid|]; [|done].
  destruct (truthy_field (data !! "route_id")) as [route_id|]; [|done].
  destruct (truthy_field (data !! "alert_type")) as [alert_type|]; [|done].
  destruct (find_user uid db) as [user|] eqn:Huser; [|done].
  destruct (write_locked db); [done|].
  destruct Hc. simpl.
  destruct (next_id_above (alerts_seq db) (al_id <$> alerts db)) as [Hseq Hids].
  apply find_user_Some in Huser as [Huser _].
  split; simpl; try done.
  - rewrite fmap_app. apply NoDup_snoc; [done|]. apply next_id_fresh.
  - apply Forall_app. split; [|by repeat constructor].
    apply (Forall_le_trans _ (alerts_seq db)); [lia|done].
  - apply Forall_app. split; [done|]. repeat constructor. simpl.
    by apply list_elem_of_fmap_2.
Qed.

Lemma delete_favorite_consistent (favorite_id : Z) (db : Database) :
  db_consistent db → db_consistent (delete_favorite favorite_id db).2.
Proof.
  intros Hc. unfold delete_favorite. destruct (write_locked db); [done|].
  destruct Hc. split; simpl; try done.
  - by apply NoDup_fmap_filter.
  - by apply NoDup_fmap_filter.
  - by apply Forall_filter_keep.
  - by apply Forall_filter_keep.
Qed.

Lemma delete_alert_consistent (alert_id : Z) (db : Database) :
  db_consistent db → db_consistent (delete_alert alert_id db).2.
Proof.
  intros Hc. unfold delete_alert. destruct (write_locked db); [done|].
  destruct Hc. split; simpl; try done.
  - by apply NoDup_fmap_filter.
  - by apply Forall_filter_keep.
  - by apply Forall_filter_keep.
Qed.

Lemma handle_consistent (req : Request) (db : Database) :
  db_consistent db → db_consistent (handle req db).2.
Proof.
  intros Hc. destruct req; cbn [handle snd]; try done.
  - by apply create_user_consistent.
  - by apply add_favorite_consistent.
  - by apply delete_favorite_consistent.
  - by apply create_alert_consistent.
  - by apply delete_alert_consistent.
Qed.

Lemma empty_db_consistent : db_consistent empty_db.
Proof. split; simpl; constructor. Qed.

(** X19. Whatever requests the account endpoints have served since the
    store was empty, and whenever the abandoned connections were reclaimed
    in between, the store obeys its schema: one user per Firebase uid, one
    favorite per user and route, distinct ids in every table, none above
    the AUTOINCREMENT counter of its table, and every favorite and alert
    subscription belongs to a user of the store. *)
Theorem store_stays_consistent (events : list Event) :
  db_consistent (run_events events empty_db).
Proof.
  unfold run_events. generalize empty_db_consistent. generalize empty_db.
  induction events as [|ev events IH]; intros db Hc; [done|].
  cbn [fold_left]. apply IH. destruct ev as [req|]; simpl.
  - by apply handle_consistent.
  - by apply set_write_locked_consistent.
Qed.

(** A session: the second favorite for route A is refused with 409 and
    leaves the lock behind, so that the deletion is refused; once the
    connection is reclaimed the deletion and a new favorite go through. *)
Example account_requests_example :
  favorites (run_events
               [ Serve (CreateUser 10 (body [("firebase_uid", "u1"); ("email", "a@b.c")]));
                 Serve (AddFavorite 11 (body [("firebase_uid", "u1"); ("route_id", "A");
                                              ("route_type", "subway")]));
                 Serve (AddFavorite 12 (body [("firebase_uid", "u1"); ("route_id", "A");
                                              ("route_type", "bus")]));
                 Serve (DeleteFavorite 1);
                 Reclaim;
                 Serve (DeleteFavorite 1);
                 Serve (AddFavorite 13 (body [("firebase_uid", "u1"); ("route_id", "A");
                                              ("route_type", "bus")])) ]
               empty_db) =
  [ {| fv_id := 2; fv_user_id := 1; fv_route_id := "A"; fv_route_type := "bus";
       fv_created_at := 13 |} ] ∧
  (handle (DeleteFavorite 1)
     (run_events
        [ Serve (CreateUser 10 (body [("firebase_uid", "u1"); ("email", "a@b.c")]));
          Serve (AddFavorite 11 (body [("firebase_uid", "u1"); ("route_id", "A");
                                       ("route_type", "subway")]));
          Serve (AddFavorite 12 (body [("firebase_uid", "u1"); ("route_id", "A");
                                       ("route_type", "bus")])) ]
        empty_db)).1 = (500, Failure "database is locked").
Proof. split; reflexivity. Qed.

(** The AUTOINCREMENT counter of the favorites never goes down. *)
Lemma handle_favorites_seq (req : Request) (db : Database) :
  favorites_seq db ≤ favorites_seq (handle req db).2.
Proof.
  destruct req as [now data| | |now data|favorite_id| |now data|alert_id];
    cbn [handle snd]; try lia.
  - unfold create_user. destruct data as [data|]; [|simpl; lia].
    destruct (truthy_field _); [|simpl; lia].
    destruct (truthy_field _); [|simpl; lia].
    destruct (write_locked db); [simpl; lia|]. case_decide; simpl; lia.
  - unfold add_favorite. destruct data as [data|]; [|simpl; lia].
    destruct (truthy_field _); [|simpl; lia].
    destruct (truthy_field _); [|simpl; lia].
    destruct (truthy_field _); [|simpl; lia].
    destruct (find_user _ _); [|simpl; lia].
    destruct (write_locked db); [simpl; lia|]. case_decide; simpl; [lia|].
    destruct (next_id_above (favorites_seq db) (fv_id <$> favorites db)). lia.
  - unfold delete_favorite. destruct (write_locked db); simpl; lia.
  - unfold create_alert. destruct data as [data|]; [|simpl; lia].
    destruct (truthy_field _); [|simpl; lia].
    destruct (truthy_field _); [|simpl; lia].
    destruct (truthy_field _); [|simpl; lia].
    destruct (find_user _ _); [|simpl; lia].
    destruct (write_locked db); simpl; lia.
  - unfold delete_alert. destruct (write_locked db); simpl; lia.
Qed.

Lemma run_events_favorites_seq (events : list Event) (db : Database) :
  favorites_seq db ≤ favorites_seq (run_events events db).
Proof.
  unfold run_events. revert db.
  induction events as [|ev events IH]; intros db; [simpl; lia|].
  cbn [fold_left]. etrans; [|apply IH].
  destruct ev as [req|]; simpl; [apply handle_favorites_seq|lia].
Qed.

(** A favorite that is added gets an id above the counter. *)
Lemma add_favorite_id_above (now : Z) (data : option (gmap string string))
    (db db' : Database) (favorite_id : Z) :
  add_favorite now data db = ((200, FavoriteCreated favorite_id), db') →
  favorites_seq db < favorite_id.
Proof.
  unfold add_favorite. destruct data as [data|]; [|done].
  destruct (truthy_field _); [|done].
  destruct (truthy_field _); [|done].
  destruct (truthy_field _); [|done].
  destruct (find_user _ _); [|done].
  destruct (write_locked db); [done|]. case_decide; [done|].
  intros [= <- _].
  by destruct (next_id_above (favorites_seq db) (fv_id <$> favorites db)).
Qed.

Lemma find_user_snoc (firebase_uid : string) (db : Database) (us : list UserRow)
    (u : UserRow) (db' : Database) :
  users db' = users db ++ [u] →
  find_user firebase_uid db' =
  match find_user firebase_uid db with
  | Some u0 => Some u0
  | None => if decide (ur_firebase_uid u = firebase_uid) then Some u else None
  end.
Proof.
  unfold find_user. intros ->. rewrite filter_app.
  destruct (filter _ (users db)) as [|u0 l]; [|done]. simpl.
  rewrite filter_cons, filter_nil. by case_decide.
Qed.

(** X20. On a store whose write lock is free, creating a user whose uid is
    not in the store succeeds with an id above every id of the table and
    leaves the lock free; the user can then be read back under the uid with
    the email given, and the other uids read as before.  A second creation
    under the same uid is answered with 409; it leaves the tables as they
    are but the write lock taken: the users are read as before, every
    further creation is answered with 500, database is locked, and changes
    nothing, and the store is as it was before the second creation once the
    abandoned connection is reclaimed. *)
Theorem create_user_round_trip (now : Z) (data : gmap string string)
    (db : Database) (firebase_uid email : string) :
  truthy_field (data !! "firebase_uid") = Some firebase_uid →
  truthy_field (data !! "email") = Some email →
  firebase_uid ∉ ur_firebase_uid <$> users db →
  write_locked db = false →
  ∃ user_id db',
    create_user now (Some data) db = ((200, UserCreated user_id), db') ∧
    Forall (λ u, ur_id u < user_id) (users db) ∧
    write_locked db' = false ∧
    get_user firebase_uid db' =
      (200, UserFound {| ur_id := user_id; ur_firebase_uid := firebase_uid;
                         ur_email := email; ur_created_at := now |}) ∧
    (∀ other, other ≠ firebase_uid → get_user other db' = get_user other db) ∧
    ∀ now' data',
      truthy_field (data' !! "firebase_uid") = Some firebase_uid →
      is_Some (truthy_field (data' !! "email")) →
      create_user now' (Some data') db' =
        ((409, Failure "User already exists"), abandon_connection db') ∧
      (∀ uid, get_user uid (abandon_connection db') = get_user uid db') ∧
      (∀ now'' data'',
         is_Some (truthy_field (data'' !! "firebase_uid")) →
         is_Some (truthy_field (data'' !! "email")) →
         create_user now'' (Some data'') (abandon_connection db') =
           ((500, Failure "database is locked"), abandon_connection db')) ∧
      reclaim_connections (abandon_connection db') = db'.
Proof.
  intros Huid Hemail Hnew Hfree. unfold create_user at 1.
  rewrite Huid, Hemail, Hfree.
  rewrite decide_False by done. eexists _, _. split; [reflexivity|].
  set (user := {| ur_id := next_id (users_seq db) (ur_id <$> users db);
                  ur_firebase_uid := firebase_uid; ur_email := email;
                  ur_created_at := now |}).
  set (db' := {| users := users db ++ [user] |}).
  assert (Hfind : ∀ uid, get_user uid db' =
            match find_user uid db with
            | Some u0 => (200, UserFound u0)
            | None => if decide (firebase_uid = uid) then (200, UserFound user)
                      else (404, Failure "User not found")
            end).
  { intros uid. unfold get_user.
    rewrite (find_user_snoc uid db (users db) user db' eq_refl).
    destruct (find_user uid db); [done|]. simpl. by case_decide. }
  split_and!.
  - destruct (next_id_above (users_seq db) (ur_id <$> users db)) as [_ Hall].
    by rewrite Forall_fmap in Hall.
  - done.
  - rewrite Hfind. apply find_user_None in Hnew. rewrite Hnew.
    by rewrite decide_True.
  - intros other Hother. rewrite Hfind. unfold get_user.
    destruct (find_user other db); [done|]. by rewrite decide_False.
  - intros now' data' Huid' [email' Hemail']. split_and!.
    + unfold create_user. rewrite Huid', Hemail'. cbn [write_locked db'].
      rewrite decide_True; [done|].
      simpl. rewrite fmap_app, elem_of_app. right. left.
    + done.
    + intros now'' data'' [uid'' Huid''] [email'' Hemail''].
      unfold create_user. by rewrite Huid'', Hemail''.
    + done.
Qed.

Lemma create_user_round_trip_witness :
  ∃ db',
    create_user 10 (Some new_user_fields) empty_db = ((200, UserCreated 1), db') ∧
    get_user "u1" db' =
      (200, UserFound {| ur_id := 1; ur_firebase_uid := "u1"; ur_email := "a@b.c";
                         ur_created_at := 10 |}) ∧
    create_user 11 (Some new_user_fields) db' =
      ((409, Failure "User already exists"), abandon_connection db') ∧
    create_user 12 (Some new_user_fields) (abandon_connection db') =
      ((500, Failure "database is locked"), abandon_connection db').
Proof.
  destruct (create_user_round_trip 10 new_user_fields empty_db "u1" "a@b.c"
              eq_refl eq_refl)
    as (user_id & db' & Hcreate & _ & _ & Hget & _ & Hagain).
  { apply not_elem_of_nil. }
  { reflexivity. }
  exists db'.
  assert (user_id = 1) as -> by (by injection Hcreate).
  destruct (Hagain 11 new_user_fields eq_refl (mk_is_Some _ _ eq_refl))
    as (Hdup & _ & Hlocked & _).
  split_and!; [exact Hcreate|exact Hget|exact Hdup|].
  apply Hlocked; by eexists.
Defined.

Lemma favorites_of_elem (firebase_uid : string) (db : Database) (f : FavoriteRow) :
  f ∈ favorites_of firebase_uid db ↔
  f ∈ favorites db ∧
  ∃ u, u ∈ users db ∧ fv_user_id f = ur_id u ∧ ur_firebase_uid u = firebase_uid.
Proof.
  unfold favorites_of. rewrite list_elem_of_bind. split.
  - intros (f' & Hin & Hf'). apply list_elem_of_bind in Hin as (u & Hf & Hu).
    apply list_elem_of_singleton in Hf as ->.
    apply list_elem_of_filter in Hu as [[? ?] ?]. eauto.
  - intros (Hf & u & Hu & Hid & Huid). exists f. split; [|done].
    apply list_elem_of_bind. exists u. split; [left|].
    by apply list_elem_of_filter.
Qed.

(** X21. On a store whose write lock is free, adding a favorite for a
    known user and a route that the user has not yet succeeds and leaves the
    lock free; the favorite is then among those listed for the uid, with
    what was listed before.  Adding the same route again for the user is
    answered with 409, whatever route type is given; it leaves the tables as
    they are but the write lock taken: the favorites are listed as before,
    but the favorite cannot be deleted, the deletion being answered with
    500, database is locked, until the abandoned connection is reclaimed. *)
Theorem add_favorite_round_trip (now : Z) (data : gmap string string)
    (db : Database) (firebase_uid route_id route_type : string) (user : UserRow) :
  truthy_field (data !! "firebase_uid") = Some firebase_uid →
  truthy_field (data !! "route_id") = Some route_id →
  truthy_field (data !! "route_type") = Some route_type →
  find_user firebase_uid db = Some user →
  (ur_id user, route_id) ∉ (λ f, (fv_user_id f, fv_route_id f)) <$> favorites db →
  write_locked db = false →
  ∃ favorite_id db',
    add_favorite now (Some data) db = ((200, FavoriteCreated favorite_id), db') ∧
    write_locked db' = false ∧
    {| fv_id := favorite_id; fv_user_id := ur_id user; fv_route_id := route_id;
       fv_route_type := route_type; fv_created_at := now |}
      ∈ favorites_of firebase_uid db' ∧
    (∀ f, f ∈ favorites_of firebase_uid db → f ∈ favorites_of firebase_uid db') ∧
    ∀ now' data',
      truthy_field (data' !! "firebase_uid") = Some firebase_uid →
      truthy_field (data' !! "route_id") = Some route_id →
      is_Some (truthy_field (data' !! "route_type")) →
      add_favorite now' (Some data') db' =
        ((409, Failure "Favorite already exists"), abandon_connection db') ∧
      (∀ uid, favorites_of uid (abandon_connection db') = favorites_of uid db') ∧
      delete_favorite favorite_id (abandon_connection db') =
        ((500, Failure "database is locked"), abandon_connection db') ∧
      reclaim_connections (abandon_connection db') = db'.
Proof.
  intros Huid Hroute Htype Huser Hnew Hfree. unfold add_favorite at 1.
  rewrite Huid, Hroute, Htype, Huser, Hfree. rewrite decide_False by done.
  eexists _, _. split; [reflexivity|].
  pose proof (find_user_Some _ _ _ Huser) as [Hin Hu].
  split_and!.
  - done.
  - apply favorites_of_elem. simpl. split.
    + rewrite elem_of_app. right. left.
    + by exists user.
  - intros f. rewrite !favorites_of_elem. simpl. rewrite elem_of_app.
    intros [Hf Hex]. split; [by left|done].
  - intros now' data' Huid' Hroute' [route_type' Htype']. split_and!.
    + unfold add_favorite. rewrite Huid', Hroute', Htype'.
      match goal with
      | |- context [find_user firebase_uid ?d] =>
          change (find_user firebase_uid d) with (find_user firebase_uid db)
      end.
      rewrite Huser. cbn [write_locked]. rewrite decide_True; [done|].
      simpl. rewrite fmap_app, elem_of_app. right. left.
    + done.
    + done.
    + done.
Qed.

Lemma add_favorite_round_trip_witness :
  ∃ db', add_favorite 11 (Some favorite_fields) one_user_db =
           ((200, FavoriteCreated 1), db') ∧
         add_favorite 12 (Some favorite_fields) db' =
           ((409, Failure "Favorite already exists"), abandon_connection db') ∧
         delete_favorite 1 (abandon_connection db') =
           ((500, Failure "database is locked"), abandon_connection db').
Proof.
  destruct (add_favorite_round_trip 11 favorite_fields one_user_db "u1" "A" "subway"
              {| ur_id := 1; ur_firebase_uid := "u1"; ur_email := "a@b.c";
                 ur_created_at := 10 |} eq_refl eq_refl eq_refl eq_refl)
    as (favorite_id & db' & Hadd & _ & _ & _ & Hagain).
  { apply not_elem_of_nil. }
  { reflexivity. }
  exists db'.
  assert (favorite_id = 1) as -> by (by injection Hadd).
  destruct (Hagain 12 favorite_fields eq_refl eq_refl (mk_is_Some _ _ eq_refl))
    as (Hdup & _ & Hlocked & _).
  by split_and!.
Defined.

(** X22. For a uid that is not in the store, reading the user, adding a
    favorite and creating an alert are answered with 404 and change nothing,
    while listing the favorites or the alerts of the uid is a success with
    an empty list; all this whether the write lock is taken or not, these
    paths only reading. *)
Theorem unknown_user_replies (db : Database) (firebase_uid : string) :
  firebase_uid ≠ "" →
  firebase_uid ∉ ur_firebase_uid <$> users db →
  get_user firebase_uid db = (404, Failure "User not found") ∧
  get_favorites (Some firebase_uid) db = (200, FavoritesList []) ∧
  get_alerts (Some firebase_uid) db = (200, AlertsList []) ∧
  (∀ now data,
     truthy_field (data !! "firebase_uid") = Some firebase_uid →
     is_Some (truthy_field (data !! "route_id")) →
     is_Some (truthy_field (data !! "route_type")) →
     add_favorite now (Some data) db = ((404, Failure "User not found"), db)) ∧
  (∀ now data,
     truthy_field (data !! "firebase_uid") = Some firebase_uid →
     is_Some (truthy_field (data !! "route_id")) →
     is_Some (truthy_field (data !! "alert_type")) →
     create_alert now (Some data) db = ((404, Failure "User not found"), db)).
Proof.
  intros Hne Hnot. pose proof (proj2 (find_user_None _ _) Hnot) as Hfind.
  assert (Htruthy : truthy_field (Some firebase_uid) = Some firebase_uid).
  { simpl. by destruct firebase_uid. }
  assert (Hnone : ∀ (g : UserRow → Prop) `{∀ u, Decision (g u)},
            filter (λ u, g u ∧ ur_firebase_uid u = firebase_uid) (users db) = []).
  { intros g ?. apply filter_none. intros u Hu [_ Huid]. apply Hnot.
    rewrite <- Huid. by apply list_elem_of_fmap_2. }
  split_and!.
  - unfold get_user. by rewrite Hfind.
  - unfold get_favorites. rewrite Htruthy. f_equal. f_equal.
    unfold favorites_of. induction (favorites db) as [|f l IH]; [done|].
    by rewrite bind_cons, IH, (Hnone (λ u, fv_user_id f = ur_id u) _).
  - unfold get_alerts. rewrite Htruthy. f_equal. f_equal.
    unfold alerts_of. induction (alerts db) as [|a l IH]; [done|].
    by rewrite bind_cons, IH, (Hnone (λ u, al_user_id a = ur_id u) _).
  - intros now data Huid [r Hr] [t Ht]. unfold add_favorite.
    by rewrite Huid, Hr, Ht, Hfind.
  - intros now data Huid [r Hr] [t Ht]. unfold create_alert.
    by rewrite Huid, Hr, Ht, Hfind.
Qed.

Lemma unknown_user_replies_witness :
  get_favorites (Some "u2") one_user_db = (200, FavoritesList []) ∧
  add_favorite 11 (Some (<["firebase_uid" := "u2"]> favorite_fields)) one_user_db =
    ((404, Failure "User not found"), one_user_db).
Proof.
  assert (Hne : "u2" ≠ "") by done.
  assert (Hnot : "u2" ∉ ur_firebase_uid <$> users one_user_db).
  { intros Hin. apply list_elem_of_singleton in Hin. done. }
  destruct (unknown_user_replies one_user_db "u2" Hne Hnot)
    as (_ & Hlist & _ & Hadd & _).
  split; [exact Hlist|].
  apply Hadd; [reflexivity|by eexists|by eexists].
Defined.

(** X23. While the write lock is taken a deletion is answered with 500,
    database is locked, and changes nothing.  Otherwise it is answered with
    success, whoever owns the row: afterwards no favorite has the id, the
    other favorites are as before, and an id that no favorite has leaves the
    table unchanged.  In a store that obeys its schema the id of a deleted
    favorite is never given out again: whatever happens in between, every
    favorite added later gets a greater id. *)
Theorem delete_favorite_effect (favorite_id : Z) (db : Database) :
  (write_locked db = true →
   delete_favorite favorite_id db = ((500, Failure "database is locked"), db)) ∧
  (write_locked db = false →
   (delete_favorite favorite_id db).1 = (200, Success) ∧
   (favorite_id ∉ fv_id <$> favorites (delete_favorite favorite_id db).2) ∧
   (∀ f, fv_id f ≠ favorite_id →
         (f ∈ favorites (delete_favorite favorite_id db).2 ↔ f ∈ favorites db)) ∧
   (favorite_id ∉ fv_id <$> favorites db →
    favorites (delete_favorite favorite_id db).2 = favorites db) ∧
   (db_consistent db → favorite_id ∈ fv_id <$> favorites db →
    ∀ events now data new_id db',
      add_favorite now data (run_events events (delete_favorite favorite_id db).2) =
        ((200, FavoriteCreated new_id), db') →
      favorite_id < new_id)).
Proof.
  unfold delete_favorite. split; intros ->; [done|]. cbn [fst snd].
  split_and!.
  - done.
  - intros Hin. apply list_elem_of_fmap in Hin as (f & -> & Hf).
    by apply list_elem_of_filter in Hf as [Hne _].
  - intros f Hne. cbn [favorites]. rewrite list_elem_of_filter. tauto.
  - intros Hnot. cbn [favorites].
    induction (favorites db) as [|f l IH]; [done|].
    rewrite fmap_cons, not_elem_of_cons in Hnot. destruct Hnot as [Hne Hnot].
    rewrite filter_cons_True by done. by rewrite IH.
  - intros Hc Hin events now data new_id db' Hadd.
    apply add_favorite_id_above in Hadd.
    match type of Hadd with
    | favorites_seq (run_events events ?d) < _ =>
        pose proof (run_events_favorites_seq events d) as Hmono
    end.
    cbn [favorites_seq] in Hmono.
    pose proof (favorite_ids_issued db Hc) as Hissued.
    apply list_elem_of_fmap in Hin as (f & -> & Hf).
    rewrite Forall_forall in Hissued. specialize (Hissued f Hf). simpl in Hissued.
    lia.
Qed.

Lemma one_favorite_db_consistent : db_consistent one_favorite_db.
Proof.
  apply add_favorite_consistent, create_user_consistent, empty_db_consistent.
Qed.

(** After the deletion of favorite 1, a duplicate that is refused and the
    reclaiming of its connection, the next favorite is number 3. *)
Lemma delete_favorite_effect_witness :
  (add_favorite 15 (Some (<["route_id" := "C"]> favorite_fields))
     (run_events
        [ Serve (AddFavorite 12 (Some (<["route_id" := "B"]> favorite_fields)));
          Serve (AddFavorite 13 (Some (<["route_id" := "B"]> favorite_fields)));
          Reclaim;
          Serve (DeleteFavorite 2) ]
        (delete_favorite 1 one_favorite_db).2)).1
    = (200, FavoriteCreated 3) ∧
  1 < 3.
Proof.
  split; [reflexivity|].
  destruct (delete_favorite_effect 1 one_favorite_db) as (_ & Hfree).
  destruct (Hfree eq_refl) as (_ & _ & _ & _ & Hreuse).
  apply (Hreuse one_favorite_db_consistent (list_elem_of_here _ _)
           [ Serve (AddFavorite 12 (Some (<["route_id" := "B"]> favorite_fields)));
             Serve (AddFavorite 13 (Some (<["route_id" := "B"]> favorite_fields)));
             Reclaim;
             Serve (DeleteFavorite 2) ]
           15 (Some (<["route_id" := "C"]> favorite_fields)) 3
           (add_favorite 15 (Some (<["route_id" := "C"]> favorite_fields))
              (run_events
                 [ Serve (AddFavorite 12 (Some (<["route_id" := "B"]> favorite_fields)));
                   Serve (AddFavorite 13 (Some (<["route_id" := "B"]> favorite_fields)));
                   Reclaim;
                   Serve (DeleteFavorite 2) ]
                 (delete_favorite 1 one_favorite_db).2)).2).
  reflexivity.
Defined.

(** X24. Alert subscriptions are not deduplicated: on a store whose write
    lock is free, creating the same alert twice for a known user succeeds
    both times, under two ids, and leaves two rows that differ in id and
    creation time only. *)
Theorem create_alert_twice (now1 now2 : Z) (data : gmap string string)
    (db : Database) (firebase_uid route_id alert_type : string) (user : UserRow) :
  truthy_field (data !! "firebase_uid") = Some firebase_uid →
  truthy_field (data !! "route_id") = Some route_id →
  truthy_field (data !! "alert_type") = Some alert_type →
  find_user firebase_uid db = Some user →
  write_locked db = false →
  ∃ id1 id2 db1 db2,
    create_alert now1 (Some data) db = ((200, AlertCreated id1), db1) ∧
    create_alert now2 (Some data) db1 = ((200, AlertCreated id2), db2) ∧
    id1 < id2 ∧
    alerts db2 =
      alerts db ++
      [ {| al_id := id1; al_user_id := ur_id user; al_route_id := route_id;
           al_alert_type := alert_type; al_enabled := true; al_created_at := now1 |};
        {| al_id := id2; al_user_id := ur_id user; al_route_id := route_id;
           al_alert_type := alert_type; al_enabled := true; al_created_at := now2 |} ].
Proof.
  intros Huid Hroute Htype Huser Hfree. unfold create_alert at 1.
  rewrite Huid, Hroute, Htype, Huser, Hfree.
  eexists _, _, _, _. split; [reflexivity|].
  unfold create_alert. rewrite Huid, Hroute, Htype.
  match goal with
  | |- context [find_user firebase_uid ?d] =>
      change (find_user firebase_uid d) with (find_user firebase_uid db)
  end.
  rewrite Huser. cbn [write_locked]. split; [reflexivity|]. simpl. split.
  - apply next_id_above.
  - by rewrite <- app_assoc.
Qed.

Lemma create_alert_twice_witness :
  ∃ db1 db2,
    create_alert 20 (Some alert_fields) one_user_db = ((200, AlertCreated 1), db1) ∧
    create_alert 21 (Some alert_fields) db1 = ((200, AlertCreated 2), db2) ∧
    length (alerts db2) = 2%nat.
Proof.
  destruct (create_alert_twice 20 21 alert_fields one_user_db "u1" "A" "delay"
              {| ur_id := 1; ur_firebase_uid := "u1"; ur_email := "a@b.c";
                 ur_created_at := 10 |} eq_refl eq_refl eq_refl eq_refl eq_refl)
    as (id1 & id2 & db1 & db2 & H1 & H2 & _ & Hrows).
  exists db1, db2.
  assert (id1 = 1) as -> by (by injection H1).
  assert (db1 = (create_alert 20 (Some alert_fields) one_user_db).2) as Hdb1
    by (by rewrite H1).
  assert (id2 = 2) as -> by (rewrite Hdb1 in H2; by injection H2).
  split; [exact H1|]. split; [exact H2|]. by rewrite Hrows.
Defined.

Lemma filter_key_short {A} (g : A → Z) (Q : A → Prop) `{∀ x, Decision (Q x)}
    (c : Z) (l : list A) :
  NoDup (g <$> l) → (length (filter (λ u, c = g u ∧ Q u) l) ≤ 1)%nat.
Proof.
  induction l as [|x l IH]; [simpl; lia|].
  rewrite fmap_cons, NoDup_cons. intros [Hx Hl]. rewrite filter_cons.
  case_decide as Hc; [|by apply IH].
  rewrite filter_none; [simpl; lia|].
  intros y Hy [Hcy _]. apply Hx. destruct Hc as [-> _]. rewrite Hcy.
  by apply list_elem_of_fmap_2.
Qed.

(** X25. In a store that obeys its schema the favorites listed for a uid
    are the favorites of the user with that uid, each listed once, and no
    favorite is listed for two different uids. *)
Theorem favorites_listing (db : Database) (firebase_uid : string) :
  db_consistent db →
  NoDup (favorites_of firebase_uid db) ∧
  (∀ f, f ∈ favorites_of firebase_uid db ↔
        f ∈ favorites db ∧
        ∃ u, find_user firebase_uid db = Some u ∧ fv_user_id f = ur_id u) ∧
  ∀ other f, other ≠ firebase_uid →
             f ∈ favorites_of firebase_uid db → f ∉ favorites_of other db.
Proof.
  intros Hc.
  assert (Hunique : ∀ u1 u2, u1 ∈ users db → u2 ∈ users db →
                             ur_id u1 = ur_id u2 → u1 = u2).
  { intros u1 u2 H1 H2 Heq.
    pose proof (user_ids_distinct db Hc) as Hnd.
    apply list_elem_of_lookup in H1 as [i Hi], H2 as [j Hj].
    assert (i = j) as ->.
    { eapply NoDup_lookup; [exact Hnd| |];
        rewrite list_lookup_fmap;
        [by rewrite Hi | rewrite Hj; simpl; by rewrite Heq]. }
    congruence. }
  assert (Huid_unique : ∀ u1 u2, u1 ∈ users db → u2 ∈ users db →
                                 ur_firebase_uid u1 = ur_firebase_uid u2 → u1 = u2).
  { intros u1 u2 H1 H2 Heq.
    pose proof (uids_distinct db Hc) as Hnd.
    apply list_elem_of_lookup in H1 as [i Hi], H2 as [j Hj].
    assert (i = j) as ->.
    { eapply NoDup_lookup; [exact Hnd| |];
        rewrite list_lookup_fmap;
        [by rewrite Hi | rewrite Hj; simpl; by rewrite Heq]. }
    congruence. }
  split_and!.
  - unfold favorites_of. apply NoDup_bind.
    + intros f1 f2 f Hf1 Hf2 Hin1 Hin2.
      apply list_elem_of_bind in Hin1 as (? & ->%list_elem_of_singleton & _).
      by apply list_elem_of_bind in Hin2 as (? & ->%list_elem_of_singleton & _).
    + intros f Hf.
      pose proof (filter_key_short ur_id (λ u, ur_firebase_uid u = firebase_uid)
                    (fv_user_id f) (users db) (user_ids_distinct db Hc)) as Hlen.
      destruct (filter _ (users db)) as [|u [|u' l]]; simpl in Hlen.
      * constructor.
      * apply NoDup_singleton.
      * lia.
    + apply (NoDup_fmap_1 fv_id). apply (favorite_ids_distinct db Hc).
  - intros f. rewrite favorites_of_elem. split.
    + intros (Hf & u & Hu & Hid & Huid). split; [done|].
      destruct (find_user firebase_uid db) as [u0|] eqn:Hfind.
      * apply find_user_Some in Hfind as [Hu0 Huid0].
        exists u0. split; [done|]. rewrite Hid. f_equal.
        apply Huid_unique; [done|done|congruence].
      * apply find_user_None in Hfind. exfalso. apply Hfind.
        rewrite <- Huid. by apply list_elem_of_fmap_2.
    + intros (Hf & u & Hfind & Hid). split; [done|].
      apply find_user_Some in Hfind as [Hu Huid]. by exists u.
  - intros other f Hother. rewrite !favorites_of_elem.
    intros (_ & u & Hu & Hid & Huid) (_ & u' & Hu' & Hid' & Huid').
    apply Hother. rewrite <- Huid, <- Huid'. f_equal.
    apply Hunique; [done|done|congruence].
Qed.

Lemma favorites_listing_witness : NoDup (favorites_of "u1" one_favorite_db).
Proof.
  exact (proj1 (favorites_listing one_favorite_db "u1" one_favorite_db_consistent)).
Defined.
